(** * check_samplesheet.py: a shallow embedding and its specification

    The script [bin/check_samplesheet.py] reads a comma-separated
    samplesheet, checks its header and every data row, groups the rows by
    species in a dictionary and writes the regrouped sheet.

    Python strings are sequences of Unicode code points and are modelled as
    [list N].  The dictionary [species_mapping_dict] is a [gmap].  Printing,
    [sys.exit] and the output file are effects; they are threaded through a
    small monad over a [world] holding the standard output and the content
    of the output file. *)

From Stdlib Require Import NArith ZArith Lia String Ascii DecimalNat.
From stdpp Require Import base tactics option list sorting gmap.

Local Open Scope N_scope.

(** ** Python strings *)

Module Py.

Abbreviation str := (list N).

(** A literal of the source, as a sequence of code points. *)
Definition lit (s : string) : str :=
  map N_of_ascii (list_ascii_of_string s).
Arguments lit s%_string.

Definition LF : N := 10.
Definition CR : N := 13.
Definition SPACE : N := 32.
Definition QUOTE : N := 34.
Definition COMMA : N := 44.
Definition UNDERSCORE : N := 95.
Definition BOM : N := 65279.

(** [str.isspace] on one code point: the characters removed by
    [str.strip()] without argument. *)
Definition isspace (c : N) : bool :=
  ((9 <=? c) && (c <=? 13)) || ((28 <=? c) && (c <=? 32))
  || (c =? 133) || (c =? 160) || (c =? 5760)
  || ((8192 <=? c) && (c <=? 8202))
  || (c =? 8232) || (c =? 8233) || (c =? 8239) || (c =? 8287)
  || (c =? 12288).

Definition isquote (c : N) : bool := c =? QUOTE.

(** [lstrip], [rstrip] and [strip], for a set of characters given as a
    predicate. *)
Fixpoint lstrip_by (p : N → bool) (s : str) : str :=
  match s with
  | [] => []
  | c :: t => if p c then lstrip_by p t else s
  end.

Fixpoint rstrip_by (p : N → bool) (s : str) : str :=
  match s with
  | [] => []
  | c :: t =>
      match rstrip_by p t with
      | [] => if p c then [] else [c]
      | r => c :: r
      end
  end.

Definition strip_by (p : N → bool) (s : str) : str :=
  lstrip_by p (rstrip_by p s).

(** [s.strip()] *)
Definition strip (s : str) : str := strip_by isspace s.

(** [s.strip] with the double quote as its argument. *)
Definition strip_quotes (s : str) : str := strip_by isquote s.

(** [s.split(sep)] for a separator of one character: never empty. *)
Fixpoint split (sep : N) (s : str) : list str :=
  match s with
  | [] => [[]]
  | c :: t =>
      if c =? sep then [] :: split sep t
      else match split sep t with
           | f :: fs => (c :: f) :: fs
           | [] => [[c]]
           end
  end.

(** [sep.join(l)] *)
Fixpoint join (sep : str) (l : list str) : str :=
  match l with
  | [] => []
  | [x] => x
  | x :: t => x ++ sep ++ join sep t
  end.

(** [s.find(c) != -1] for a string [c] of one character. *)
Definition contains (c : N) (s : str) : bool := existsb (N.eqb c) s.

(** [s.replace(a, b)] for strings [a] and [b] of one character. *)
Definition replace (a b : N) (s : str) : str :=
  map (λ c, if c =? a then b else c) s.

(** [s.endswith(suffix)] *)
Definition endswith (suffix s : str) : bool :=
  bool_decide (drop (length s - length suffix) s = suffix)
  && bool_decide (length suffix ≤ length s)%nat.

(** [str(n)] for a non-negative integer, as in an f-string. *)
Fixpoint digits (d : Decimal.uint) : str :=
  match d with
  | Decimal.Nil => []
  | Decimal.D0 d => 48 :: digits d
  | Decimal.D1 d => 49 :: digits d
  | Decimal.D2 d => 50 :: digits d
  | Decimal.D3 d => 51 :: digits d
  | Decimal.D4 d => 52 :: digits d
  | Decimal.D5 d => 53 :: digits d
  | Decimal.D6 d => 54 :: digits d
  | Decimal.D7 d => 55 :: digits d
  | Decimal.D8 d => 56 :: digits d
  | Decimal.D9 d => 57 :: digits d
  end.

Definition str_of_nat (n : nat) : str := digits (Nat.to_uint n).

(** The order of [<] on strings: lexicographic on code points. *)
Fixpoint str_leb (a b : str) : bool :=
  match a, b with
  | [], _ => true
  | _ :: _, [] => false
  | x :: a', y :: b' =>
      if x <? y then true else if x =? y then str_leb a' b' else false
  end.

Definition str_le (a b : str) : Prop := str_leb a b = true.
Definition str_lt (a b : str) : Prop := str_le a b ∧ a ≠ b.

#[export] Instance str_le_dec : RelDecision str_le.
Proof. intros a b; unfold str_le; apply _. Defined.

(** [sorted(l)] on a list of strings. *)
Definition sorted (l : list str) : list str := merge_sort str_le l.

(** *** Text files *)

(** The [utf-8-sig] codec drops one leading byte-order mark. *)
Definition utf_8_sig (s : str) : str :=
  match s with
  | c :: t => if c =? BOM then t else s
  | [] => []
  end.

(** Reading in text mode with the default [newline=None]: both a carriage
    return followed by a line feed and a lone carriage return are read as
    one line feed.  [pendingcr] tells that the previous character was a
    carriage return. *)
Fixpoint universal_newlines (pendingcr : bool) (s : str) : str :=
  match s with
  | [] => []
  | c :: t =>
      if c =? CR then LF :: universal_newlines true t
      else if (c =? LF) && pendingcr then universal_newlines false t
      else c :: universal_newlines false t
  end.

(** The lines a text file object yields, each with its line feed (the last
    one may lack it). *)
Fixpoint readlines (s : str) : list str :=
  match s with
  | [] => []
  | c :: t =>
      if c =? LF then [c] :: readlines t
      else match readlines t with
           | l :: ls => (c :: l) :: ls
           | [] => [[c]]
           end
  end.

(** [open(file_in, "r", encoding="utf-8-sig")], on the decoded content of
    the file. *)
Definition open_r (content : str) : list str :=
  readlines (universal_newlines false (utf_8_sig content)).

End Py.

Import Py.

(** ** Effects of the script *)

(** What the script can observe and change: the strings printed on the
    standard output (one entry per call of [print]) and the content of the
    file at [file_out] ([None] while that file does not exist). *)
Record world := World { stdout : list str; file_out : option str }.

(** How a computation ends: with a value, with [sys.exit(code)], or with an
    exception nobody catches. *)
Inductive outcome (A : Type) : Type :=
| Return (a : A)
| SystemExit (code : Z)
| Raised (exception : str).
Arguments Return {A} a.
Arguments SystemExit {A} code.
Arguments Raised {A} exception.

Definition M (A : Type) : Type := world → outcome A * world.

#[export] Instance M_ret : MRet M := λ A a w, (Return a, w).

#[export] Instance M_bind : MBind M := λ A B f m w,
  match m w with
  | (Return a, w') => f a w'
  | (SystemExit code, w') => (SystemExit code, w')
  | (Raised e, w') => (Raised e, w')
  end.

Definition print (s : str) : M unit :=
  λ w, (Return (), World (stdout w ++ [s]) (file_out w)).

Definition sys_exit {A} (code : Z) : M A := λ w, (SystemExit code, w).

Definition raise {A} (exception : str) : M A := λ w, (Raised exception, w).

(** [open(file_out, "w")] creates or truncates the file. *)
Definition open_w : M unit :=
  λ w, (Return (), World (stdout w) (Some [])).

(** [fout.write(s)] *)
Definition fout_write (s : str) : M unit :=
  λ w, (Return (), World (stdout w) (Some (default [] (file_out w) ++ s))).

(** A [for] loop whose body only has effects. *)
Fixpoint for_ {A} (l : list A) (body : A → M unit) : M unit :=
  match l with
  | [] => mret ()
  | x :: rest => body x ;; for_ rest body
  end.

(** ** The script *)

(** [print_error] (lines 28 to 33): the message, then [sys.exit(1)]. *)
Definition error_str (error context context_str : str) : str :=
  if bool_decide (context ≠ []) && bool_decide (context_str ≠ []) then
    lit "ERROR: Please check samplesheet -> " ++ error ++ [LF]
      ++ strip context ++ lit ": '" ++ strip context_str ++ lit "'"
  else lit "ERROR: Please check samplesheet -> " ++ error.

Definition print_error {A} (error context context_str : str) : M A :=
  print (error_str error context context_str) ;; sys_exit 1.

Definition MIN_COLS : nat := 6.

Definition HEADER : list str :=
  [lit "species"; lit "file"; lit "tax1"; lit "tax2"; lit "mode";
   lit "uniprot"].

(** Lines 49 to 52, on the first line of the file. *)
Definition check_header (first_line : str) : M unit :=
  let header := map strip_quotes (split COMMA (strip first_line)) in
  if bool_decide (take (length HEADER) header ≠ HEADER) then
    print (lit "ERROR: Please check samplesheet header -> "
             ++ join (lit ",") header ++ lit " != " ++ join (lit ",") HEADER) ;;
    sys_exit 1
  else mret ().

(** Line 57: what is done to each field of a data line, and the trimmed
    fields of the line. *)
Definition trim (x : str) : str := strip_quotes (strip x).

Definition lspl (line : str) : list str :=
  map trim (split COMMA (strip line)).

(** Line 67 *)
Definition num_cols (line : str) : nat :=
  length (filter (λ x, x ≠ []) (lspl line)).

(** Lines 57 to 112 of the loop body: the checks of one data line, giving
    its species and its [species_info]. *)
Definition check_row (line : str) : M (str * list str) :=
  (if bool_decide (length (lspl line) < length HEADER)%nat then
     print_error
       (lit "Invalid number of columns (minimum = "
          ++ str_of_nat (length HEADER) ++ lit ")!")
       (lit "Line") line
   else mret ()) ;;
  (if bool_decide (num_cols line < MIN_COLS)%nat then
     print_error
       (lit "Invalid number of populated columns (minimum = "
          ++ str_of_nat MIN_COLS ++ lit ")!")
       (lit "Line") line
   else mret ()) ;;
  match take (length HEADER) (lspl line) with
  | [species; file; tax1; tax2; mode; uniprot] =>
      species ←
        (if contains SPACE species then
           print (lit "WARNING: Spaces have been replaced by underscores for sample: "
                    ++ species) ;;
           mret (replace SPACE UNDERSCORE species)
         else mret species) ;
      (if bool_decide (species = []) then
         print_error (lit "Sample entry has not been specified!")
           (lit "Line") line
       else mret ()) ;;
      for_ [file] (λ fasta,
        if bool_decide (fasta ≠ []) then
          (if contains SPACE fasta then
             print_error (lit "fasta file contains spaces!") (lit "Line") line
           else mret ()) ;;
          (if negb (endswith (lit ".fasta") fasta)
              && negb (endswith (lit ".fa") fasta) then
             print_error
               (lit "Fasta file does not have extension '.fasta' or '.fa'!")
               (lit "Line") line
           else mret ())
        else mret ()) ;;
      mret (species, [file; tax1; tax2; mode; uniprot])
  | _ => raise (lit "ValueError")
  end.

(** Lines 115 to 121: the dictionary after one more row. *)
Definition populate (line species : str) (species_info : list str)
    (species_mapping_dict : gmap str (list (list str)))
  : M (gmap str (list (list str))) :=
  match species_mapping_dict !! species with
  | None => mret (<[species := [species_info]]> species_mapping_dict)
  | Some l =>
      if bool_decide (species_info ∈ l) then
        print_error (lit "Samplesheet contains duplicate rows!")
          (lit "Line") line
      else mret (<[species := l ++ [species_info]]> species_mapping_dict)
  end.

(** Lines 55 to 121: the loop over the lines after the header. *)
Fixpoint read_entries (lines : list str)
    (species_mapping_dict : gmap str (list (list str)))
  : M (gmap str (list (list str))) :=
  match lines with
  | [] => mret species_mapping_dict
  | line :: rest =>
      if bool_decide (strip line ≠ []) then
        '(species, species_info) ← check_row line ;
        d ← populate line species species_info species_mapping_dict ;
        read_entries rest d
      else read_entries rest species_mapping_dict
  end.

(** [f"{species}_T{idx+1}"] *)
Definition run_id (species : str) (idx : nat) : str :=
  species ++ lit "_T" ++ str_of_nat (idx + 1).

(** [enumerate(l)] *)
Definition enumerate {A} (l : list A) : list (nat * A) := imap pair l.

(** Lines 127 to 141.  The keys of a [gmap] come in no particular order;
    [sorted] makes the order of the dictionary irrelevant. *)
Definition write_samplesheet
    (species_mapping_dict : gmap str (list (list str))) : M unit :=
  open_w ;;
  fout_write (join (lit ",") HEADER ++ [LF]) ;;
  for_ (sorted (map fst (map_to_list species_mapping_dict))) (λ species,
    for_ (enumerate (species_mapping_dict !!! species)) (λ '(idx, val),
      fout_write (join (lit ",") ([run_id species idx] ++ val) ++ [LF]))).

(** [check_samplesheet] (lines 36 to 143), on the content of the file at
    [file_in].  Creating the directory of [file_out] is left out, and the
    file at [file_out] is taken to open: [check_samplesheet_dirs] below has
    both. *)
Definition check_samplesheet (content : str) : M unit :=
  let fin := open_r content in
  check_header (hd [] fin) ;;
  species_mapping_dict ← read_entries (tl fin) ∅ ;
  if bool_decide (0 < size species_mapping_dict)%nat then
    write_samplesheet species_mapping_dict
  else
    print_error (lit "No entries to process!") (lit "Samplesheet: {file_in}") [].


(** ** Vocabulary of the specification *)

(** The species a row is recorded under (lines 77 to 79). *)
Definition canonical (species : str) : str :=
  if contains SPACE species then replace SPACE UNDERSCORE species
  else species.

(** The warning of line 78. *)
Definition warning (species : str) : str :=
  lit "WARNING: Spaces have been replaced by underscores for sample: "
    ++ species.

(** The world after lines 77 to 79. *)
Definition warned (species : str) (w : world) : world :=
  if contains SPACE species then
    World (stdout w ++ [warning species]) (file_out w)
  else w.

(** The world after [print_error] for a row. *)
Definition fatal (error line : str) (w : world) : world :=
  World (stdout w ++ [error_str error (lit "Line") line]) (file_out w).

(** The file passes lines 84 to 93. *)
Definition fasta_ok (file : str) : bool :=
  bool_decide (file = []) ||
  (negb (contains SPACE file) &&
   (endswith (lit ".fasta") file || endswith (lit ".fa") file)).

(** The code points of the decimal digits. *)
Definition isdigit (c : N) : Prop := 48 ≤ c ≤ 57.

(** The line written for the remainder [val] at position [idx] of
    [species]. *)
Definition out_line (species : str) (idx : nat) (val : list str) : str :=
  join (lit ",") ([run_id species idx] ++ val) ++ [LF].

(** The lines written for one species. *)
Definition out_block (species : str) (vals : list (list str)) : str :=
  concat (imap (out_line species) vals).

(** The first line written. *)
Definition header_line : str := join (lit ",") HEADER ++ [LF].

(** [line] passes the checks of a row and gives the record [r]: its
    species and its [species_info]. *)
Definition validated (line : str) (r : str * list str) : Prop :=
  ∀ w, ∃ w', check_row line w = (Return r, w') ∧ file_out w' = file_out w.

(** The [species_info] of the records of one species, in their order. *)
Definition remainders (species : str) (recs : list (str * list str))
  : list (list str) :=
  (filter (λ r, r.1 = species) recs).*2.

(** The dictionary built from the records [recs]. *)
Definition grouped (recs : list (str * list str))
    (d : gmap str (list (list str))) : Prop :=
  ∀ species,
    d !! species =
    if decide (remainders species recs = []) then None
    else Some (remainders species recs).

(** The lines the loop does not skip. *)
Definition data_lines (lines : list str) : list str :=
  filter (λ line, strip line ≠ []) lines.

(** The header of the input passes line 50. *)
Definition header_ok (content : str) : Prop :=
  take (length HEADER)
    (map strip_quotes (split COMMA (strip (hd [] (open_r content))))) = HEADER.

(** The content of the output file for the records [recs], with the species
    in the order [keys]. *)
Definition out_text (keys : list str) (recs : list (str * list str)) : str :=
  header_line ++
  concat (map (λ species, out_block species (remainders species recs)) keys).


(** A string that is one field of one line of a file. *)
Definition plain (s : str) : Prop := (COMMA ∉ s) ∧ (LF ∉ s) ∧ (CR ∉ s).

(** The rows written for the records [recs]: the run identifier and the
    remainder of each. *)
Definition out_rows (keys : list str) (recs : list (str * list str))
  : list (str * list str) :=
  concat (map (λ species,
            imap (λ idx val, (run_id species idx, val))
              (remainders species recs))
          keys).

(** A row of the output as text, without its line feed. *)
Definition row_line (r : str * list str) : str := join (lit ",") (r.1 :: r.2).

(** What every record of an input is like. *)
Definition well_formed (r : str * list str) : Prop :=
  r.1 ≠ [] ∧ (SPACE ∉ r.1) ∧ plain r.1 ∧
  ∃ file tax1 tax2 mode uniprot,
    r.2 = [file; tax1; tax2; mode; uniprot] ∧
    Forall plain r.2 ∧
    (file ≠ [] →
     (SPACE ∉ file) ∧
     (endswith (lit ".fasta") file = true ∨ endswith (lit ".fa") file = true)).

(** The rows of the output of a run. *)
Definition row_ok (r : str * list str) : Prop :=
  ∃ species idx file tax1 tax2 mode uniprot,
    r = (run_id species idx, [file; tax1; tax2; mode; uniprot]) ∧
    well_formed (species, [file; tax1; tax2; mode; uniprot]).

(** A species does not begin with a character that trimming removes. *)
Definition starts_clean (s : str) : Prop :=
  ∀ c, head s = Some c → isspace c = false ∧ isquote c = false.

(** A record whose row of the output gives a valid row again: the species
    does not begin with white space or a double quote, which trimming would
    remove, and no field is empty once trimmed. *)
Definition rereadable (r : str * list str) : Prop :=
  starts_clean r.1 ∧ Forall (λ f, trim f ≠ []) r.2.

(** ** The directory of the output file *)

Definition SLASH : N := 47.

(** [p[:p.rfind(sep) + 1]]: the string up to its last [sep], that included;
    empty without one. *)
Fixpoint upto_last (sep : N) (p : str) : str :=
  match p with
  | [] => []
  | c :: t =>
      match upto_last sep t with
      | [] => if c =? sep then [c] else []
      | r => c :: r
      end
  end.

(** [os.path.dirname] on POSIX paths: the part before the last slash,
    without its trailing slashes unless it consists of slashes only. *)
Definition dirname (p : str) : str :=
  let head := upto_last SLASH p in
  if bool_decide (head ≠ []) && negb (forallb (N.eqb SLASH) head) then
    rstrip_by (N.eqb SLASH) head
  else head.

(** How a call of the operating system ends. *)
Inductive os_result : Type :=
| Done
| OSError (errno : Z).

(** [errno.EEXIST] *)
Definition EEXIST : Z := 17.

Section directories.

(** The file system, and [os.makedirs] and the opening of a file for
    writing on it: they are the operating system's, not the script's. *)
Context {FS : Type}.
Variable makedirs : str → FS → os_result * FS.
Variable open_for_writing : str → FS → os_result * FS.

(** [make_dir] (lines 19 to 25) *)
Definition make_dir (path : str) (fs : FS) : os_result * FS :=
  if bool_decide (0 < length path)%nat then
    match makedirs path fs with
    | (Done, fs') => (Done, fs')
    | (OSError errno, fs') =>
        if bool_decide (errno ≠ EEXIST) then (OSError errno, fs')
        else (Done, fs')
    end
  else (Done, fs).

(** [check_samplesheet] (lines 36 to 143) with its dealings with the
    operating system in lines 125 to 127: the directory of [file_out] is
    made, then the file is opened.  An [OSError] of [make_dir] or of [open]
    is not caught, and the file is written only once it is open; writing to
    the open file is taken to succeed, as in [write_samplesheet]. *)
Definition check_samplesheet_dirs (content file_out : str) (w : world)
    (fs : FS) : outcome unit * world * FS :=
  let fin := open_r content in
  match (check_header (hd [] fin) ;; read_entries (tl fin) ∅) w with
  | (Return species_mapping_dict, w') =>
      if bool_decide (0 < size species_mapping_dict)%nat then
        let out_dir := dirname file_out in
        match make_dir out_dir fs with
        | (Done, fs') =>
            match open_for_writing file_out fs' with
            | (Done, fs'') =>
                (write_samplesheet species_mapping_dict w', fs'')
            | (OSError errno, fs'') => (Raised (lit "OSError"), w', fs'')
            end
        | (OSError errno, fs') => (Raised (lit "OSError"), w', fs')
        end
      else
        (@print_error unit (lit "No entries to process!")
           (lit "Samplesheet: {file_in}") [] w', fs)
  | (SystemExit code, w') => (SystemExit code, w', fs)
  | (Raised e, w') => (Raised e, w', fs)
  end.

End directories.

(** A small file system for examples: the set of the directories that
    exist, where [makedirs] fails on a directory that exists already and a
    file is opened in the current directory or in a directory that
    exists. *)
Definition set_makedirs (path : str) (fs : gset str) : os_result * gset str :=
  if bool_decide (path ∈ fs) then (OSError EEXIST, fs)
  else (Done, {[path]} ∪ fs).

(** [errno.ENOENT] *)
Definition ENOENT : Z := 2.

Definition set_open (path : str) (fs : gset str) : os_result * gset str :=
  if bool_decide (dirname path = [] ∨ dirname path ∈ fs) then (Done, fs)
  else (OSError ENOENT, fs).

(** The text with the lines [ls], each ended by a line feed. *)
Definition text_of_lines (ls : list str) : str :=
  concat (map (λ l, l ++ [LF]) ls).

(** The text with every line feed written as a carriage return and a line
    feed, as on Windows. *)
Definition to_crlf (s : str) : str :=
  concat (map (λ c, if c =? LF then [CR; LF] else [c]) s).

(** The two kinds of messages the script prints. *)
Definition is_warning (m : str) : Prop := lit "WARNING: " `prefix_of` m.

Definition is_error (m : str) : Prop :=
  lit "ERROR: Please check samplesheet" `prefix_of` m.

(** What a part of the script has printed when it ends in [w'], having
    started in [w]: warnings, and one error message at the end exactly when
    it exits. *)
Definition printed {A} (w : world) (r : outcome A * world) : Prop :=
  ∃ warns,
    Forall is_warning warns ∧
    match r.1 with
    | Return _ => stdout r.2 = stdout w ++ warns
    | SystemExit code =>
        code = 1%Z ∧ ∃ e, is_error e ∧ stdout r.2 = stdout w ++ warns ++ [e]
    | Raised _ => False
    end.

(** The records [recs] in the order of the output: those of the first
    species of [keys], then those of the second, and so on. *)
Definition regrouped (keys : list str) (recs : list (str * list str))
  : list (str * list str) :=
  concat (map (λ species, map (pair species) (remainders species recs)) keys).

(** The warnings for the lines [lines]: one for each line whose first field
    contains a space. *)
Definition warnings_of (lines : list str) : list str :=
  map warning (filter (λ s, SPACE ∈ s) (map (λ l, hd [] (lspl l)) lines)).

(** * Properties *)

(** ** The model on small inputs *)

Example strip_example :
  strip ([SPACE; 9] ++ lit "a b" ++ [SPACE; LF]) = lit "a b".
Proof. reflexivity. Qed.

Example split_example :
  split COMMA (lit "a,,b,") = [lit "a"; []; lit "b"; []].
Proof. reflexivity. Qed.

Example lspl_example :
  lspl ([SPACE] ++ lit "cat , " ++ [QUOTE] ++ lit "c.fa" ++ [QUOTE]
          ++ lit ",,x" ++ [LF])
  = [lit "cat"; lit "c.fa"; []; lit "x"].
Proof. reflexivity. Qed.

Example open_r_example :
  open_r ([BOM] ++ lit "a" ++ [CR; LF] ++ lit "b" ++ [CR] ++ lit "c")
  = [lit "a" ++ [LF]; lit "b" ++ [LF]; lit "c"].
Proof. reflexivity. Qed.

Example str_of_nat_example : str_of_nat 120 = lit "120".
Proof. reflexivity. Qed.

Example sorted_example :
  sorted [lit "cat"; lit "ant"; lit "cat_2"; lit "Dog"]
  = [lit "Dog"; lit "ant"; lit "cat"; lit "cat_2"].
Proof. vm_compute. reflexivity. Qed.

Example swapped_header_rejected :
  check_samplesheet
    (lit "species,file,tax2,tax1,mode,uniprot" ++ [LF]
       ++ lit "cat,c.fa,a,b,c,d" ++ [LF])
    (World [] None)
  = (SystemExit 1,
     World [lit "ERROR: Please check samplesheet header -> species,file,tax2,tax1,mode,uniprot != species,file,tax1,tax2,mode,uniprot"]
       None).
Proof. vm_compute. reflexivity. Qed.

Example header_only_rejected :
  check_samplesheet (lit "species,file,tax1,tax2,mode,uniprot" ++ [LF])
    (World [] None)
  = (SystemExit 1,
     World [lit "ERROR: Please check samplesheet -> No entries to process!"]
       None).
Proof. vm_compute. reflexivity. Qed.

Example file_with_space_rejected :
  check_samplesheet
    (lit "species,file,tax1,tax2,mode,uniprot" ++ [LF]
       ++ lit "cat,sample 1.fasta,a,b,c,d" ++ [LF])
    (World [] None)
  = (SystemExit 1,
     World [lit "ERROR: Please check samplesheet -> fasta file contains spaces!"
              ++ [LF] ++ lit "Line: 'cat,sample 1.fasta,a,b,c,d'"]
       None).
Proof. vm_compute. reflexivity. Qed.

Arguments lit : simpl never.

Lemma bind_unfold {A B} (m : M A) (f : A → M B) w :
  (m ≫= f) w =
  match m w with
  | (Return a, w') => f a w'
  | (SystemExit code, w') => (SystemExit code, w')
  | (Raised e, w') => (Raised e, w')
  end.
Proof. reflexivity. Qed.

Lemma bind_Return {A B} (m : M A) (f : A → M B) w b w' :
  (m ≫= f) w = (Return b, w') ↔
  ∃ a w1, m w = (Return a, w1) ∧ f a w1 = (Return b, w').
Proof.
  rewrite bind_unfold. destruct (m w) as [[a|c|e] w1]; split.
  - eauto.
  - intros (a' & w1' & [= -> ->] & H); done.
  - done.
  - intros (? & ? & [=] & _).
  - done.
  - intros (? & ? & [=] & _).
Qed.

Lemma print_error_run {A} error context context_str w :
  @print_error A error context context_str w =
  (SystemExit 1,
   World (stdout w ++ [error_str error context context_str]) (file_out w)).
Proof. reflexivity. Qed.


Lemma check_row_run line w :
  check_row line w =
  if bool_decide (length (lspl line) < length HEADER)%nat then
    (SystemExit 1,
     fatal (lit "Invalid number of columns (minimum = "
              ++ str_of_nat (length HEADER) ++ lit ")!") line w)
  else if bool_decide (num_cols line < MIN_COLS)%nat then
    (SystemExit 1,
     fatal (lit "Invalid number of populated columns (minimum = "
              ++ str_of_nat MIN_COLS ++ lit ")!") line w)
  else
    match lspl line with
    | species :: file :: tax1 :: tax2 :: mode :: uniprot :: _ =>
        if bool_decide (canonical species = []) then
          (SystemExit 1,
           fatal (lit "Sample entry has not been specified!") line
             (warned species w))
        else if bool_decide (file ≠ []) && contains SPACE file then
          (SystemExit 1,
           fatal (lit "fasta file contains spaces!") line (warned species w))
        else if negb (fasta_ok file) then
          (SystemExit 1,
           fatal (lit "Fasta file does not have extension '.fasta' or '.fa'!")
             line (warned species w))
        else
          (Return (canonical species, [file; tax1; tax2; mode; uniprot]),
           warned species w)
    | _ => (Raised (lit "ValueError"), w)
    end.
Proof.
  unfold check_row. rewrite !bind_unfold.
  case_bool_decide as Hlen; [done|].
  unfold mret, M_ret.
  case_bool_decide as Hnum; [done|].
  destruct (lspl line) as [|species [|file [|tax1 [|tax2 [|mode [|uniprot rest]]]]]];
    try done.
  cbn [take length HEADER]. rewrite take_0.
  unfold canonical, warned, fasta_ok, fatal, for_, print_error.
  destruct (decide (file = [])) as [->|Hfile].
  - rewrite (bool_decide_eq_false_2 ([] ≠ [])) by (by intros []).
    rewrite (bool_decide_eq_true_2 (@nil N = [])) by done.
    destruct (contains SPACE species) eqn:Hsp;
      unfold mbind, M_bind, mret, M_ret, print, sys_exit;
      cbv beta iota zeta; by case_bool_decide.
  - rewrite (bool_decide_eq_true_2 (file ≠ [])) by done.
    rewrite (bool_decide_eq_false_2 (file = [])) by done.
    destruct (contains SPACE species) eqn:Hsp;
      unfold mbind, M_bind, mret, M_ret, print, sys_exit;
      cbv beta iota zeta; (case_bool_decide; [done|]);
      cbn [andb orb];
      (destruct (contains SPACE file); [done|]); cbn [negb andb];
      by destruct (endswith (lit ".fasta") file), (endswith (lit ".fa") file).
Qed.

(** ** Stripping *)

Section stripping.
Variable p : N → bool.

Lemma lstrip_by_suffix s : lstrip_by p s `suffix_of` s.
Proof.
  induction s as [|c t IH]; cbn; [done|].
  destruct (p c); [by apply suffix_cons_r|done].
Qed.

Lemma rstrip_by_prefix s : rstrip_by p s `prefix_of` s.
Proof.
  induction s as [|c t IH]; cbn; [done|].
  destruct (rstrip_by p t) as [|r rs] eqn:E.
  - destruct (p c); [apply prefix_nil|]. by apply prefix_cons, prefix_nil.
  - by apply prefix_cons.
Qed.

Lemma strip_by_elem s x : x ∈ strip_by p s → x ∈ s.
Proof.
  unfold strip_by. intros H.
  destruct (lstrip_by_suffix (rstrip_by p s)) as [k1 E1].
  destruct (rstrip_by_prefix s) as [k2 E2].
  rewrite E2, E1. set_solver.
Qed.

Lemma lstrip_by_head s c t : lstrip_by p s = c :: t → p c = false.
Proof.
  induction s as [|d s IH]; cbn; [done|].
  destruct (p d) eqn:E; [done|]. by intros [= <- _].
Qed.

Lemma lstrip_by_id c t : p c = false → lstrip_by p (c :: t) = c :: t.
Proof. intros H; cbn. by rewrite H. Qed.

Lemma rstrip_by_snoc s c : p c = true → rstrip_by p (s ++ [c]) = rstrip_by p s.
Proof.
  intros Hc. induction s as [|d s IH]; cbn.
  - by rewrite Hc.
  - by rewrite IH.
Qed.

Lemma rstrip_by_nil s : rstrip_by p s = [] ↔ Forall (λ c, p c = true) s.
Proof.
  induction s as [|c t IH]; cbn; [by split; [constructor|]|].
  destruct (rstrip_by p t) as [|r rs] eqn:E.
  - destruct (p c) eqn:Hc; split; try done.
    + intros _. constructor; [done|]. by apply IH.
    + intros H. apply Forall_cons in H as [H _]. congruence.
  - split; [done|]. intros H. apply Forall_cons in H as [_ H].
    by apply IH in H.
Qed.

Lemma rstrip_by_cons_nonp c t :
  p c = false → rstrip_by p (c :: t) = c :: rstrip_by p t.
Proof. intros H; cbn. rewrite H. by destruct (rstrip_by p t). Qed.

Lemma rstrip_by_cons_p c t :
  p c = true →
  rstrip_by p (c :: t) =
  match rstrip_by p t with [] => [] | r => c :: r end.
Proof. intros H; cbn. by rewrite H. Qed.

(** A stripped string does not end with a stripped character. *)
Lemma rstrip_by_last s c : last (rstrip_by p s) = Some c → p c = false.
Proof.
  revert c. induction s as [|d s IH]; intros c; cbn; [done|].
  destruct (rstrip_by p s) as [|r rs] eqn:E.
  - destruct (p d) eqn:Hd; [done|]. by intros [= <-].
  - intros H. apply IH. by rewrite <- H.
Qed.

Lemma lstrip_by_nil s : lstrip_by p s = [] ↔ Forall (λ c, p c = true) s.
Proof.
  induction s as [|c t IH]; cbn; [by split; [constructor|]|].
  destruct (p c) eqn:Hc.
  - rewrite IH. split; [by constructor|]. by intros [_ ?]%Forall_cons.
  - split; [done|]. intros [? _]%Forall_cons. congruence.
Qed.

Lemma strip_by_cons_p c s : p c = true → strip_by p (c :: s) = strip_by p s.
Proof.
  intros Hc. unfold strip_by. rewrite rstrip_by_cons_p by done.
  destruct (rstrip_by p s); [done|]. cbn. by rewrite Hc.
Qed.

Lemma strip_by_cons_nonp c s :
  p c = false → strip_by p (c :: s) = c :: rstrip_by p s.
Proof.
  intros Hc. unfold strip_by. rewrite rstrip_by_cons_nonp by done.
  by apply lstrip_by_id.
Qed.

Lemma strip_by_snoc s c : p c = true → strip_by p (s ++ [c]) = strip_by p s.
Proof. intros Hc. unfold strip_by. by rewrite rstrip_by_snoc. Qed.

Lemma strip_by_head s c t : strip_by p s = c :: t → p c = false.
Proof. apply lstrip_by_head. Qed.

(** Stripping leaves a string alone that neither starts nor ends with a
    stripped character. *)
Lemma rstrip_by_id s c : last s = Some c → p c = false → rstrip_by p s = s.
Proof.
  intros Hl Hc. induction s as [|d s IH]; [done|].
  destruct s as [|e s].
  - cbn in *. injection Hl as ->. by rewrite Hc.
  - cbn [last] in Hl. specialize (IH Hl).
    change (rstrip_by p (d :: e :: s)) with
      (match rstrip_by p (e :: s) with
       | [] => if p d then [] else [d] | r => d :: r end).
    by rewrite IH.
Qed.

Lemma rstrip_by_app_id s t c :
  last t = Some c → p c = false → rstrip_by p (s ++ t) = s ++ t.
Proof.
  intros Hl Hc. apply rstrip_by_id with c; [|done].
  destruct t as [|d t]; [done|]. by rewrite last_app, Hl.
Qed.
End stripping.

(** ** Splitting and joining *)

Lemma split_nonempty sep s : split sep s ≠ [].
Proof. destruct s as [|c t]; cbn; [done|]. destruct (c =? sep); [done|]. by destruct (split sep t). Qed.

Lemma split_cons_sep sep t : split sep (sep :: t) = [] :: split sep t.
Proof. cbn. by rewrite N.eqb_refl. Qed.

Lemma split_cons_other sep c t :
  c ≠ sep →
  ∃ f fs, split sep t = f :: fs ∧ split sep (c :: t) = (c :: f) :: fs.
Proof.
  intros Hc. cbn. apply N.eqb_neq in Hc. rewrite Hc.
  destruct (split sep t) as [|f fs] eqn:E; [by apply split_nonempty in E|].
  eauto.
Qed.

Lemma split_app sep a b :
  sep ∉ a → split sep (a ++ sep :: b) = a :: split sep b.
Proof.
  induction a as [|c a IH]; intros Ha.
  - apply split_cons_sep.
  - apply not_elem_of_cons in Ha as [Hc Ha].
    cbn. apply not_eq_sym, N.eqb_neq in Hc. rewrite Hc. by rewrite IH.
Qed.

Lemma split_no_sep sep s : sep ∉ s → split sep s = [s].
Proof.
  induction s as [|c s IH]; intros Hs; [done|].
  apply not_elem_of_cons in Hs as [Hc Hs].
  cbn. apply not_eq_sym, N.eqb_neq in Hc. rewrite Hc. by rewrite IH.
Qed.

Lemma split_join sep fs :
  fs ≠ [] → Forall (λ f, sep ∉ f) fs → split sep (join [sep] fs) = fs.
Proof.
  induction fs as [|f fs IH]; [done|]. intros _ [Hf Hfs]%Forall_cons.
  destruct fs as [|g fs].
  - by apply split_no_sep.
  - change (join [sep] (f :: g :: fs)) with (f ++ sep :: join [sep] (g :: fs)).
    rewrite split_app by done. by rewrite IH.
Qed.

Lemma split_elem sep s f x : f ∈ split sep s → x ∈ f → x ∈ s ∧ x ≠ sep.
Proof.
  revert f. induction s as [|c s IH]; intros f; cbn.
  - intros ->%list_elem_of_singleton. by intros ?%elem_of_nil.
  - destruct (N.eqb_spec c sep) as [->|Hc].
    + intros [->|Hf]%elem_of_cons; [by intros ?%elem_of_nil|].
      intros Hx. destruct (IH _ Hf Hx). split; [by right|done].
    + destruct (split sep s) as [|g gs] eqn:E; [by apply split_nonempty in E|].
      intros [->|Hf]%elem_of_cons.
      * intros [->|Hx]%elem_of_cons; [split; [by left|done]|].
        destruct (IH g) as [? ?]; [by left|done|]. split; [by right|done].
      * intros Hx. destruct (IH f) as [? ?]; [by right|done|].
        split; [by right|done].
Qed.

(** Stripping a line before it is split changes its fields by outer white
    space only, which the stripping of every field removes anyway. *)
Lemma split_rstrip sep s :
  isspace sep = false →
  map (rstrip_by isspace) (split sep (rstrip_by isspace s)) =
  map (rstrip_by isspace) (split sep s).
Proof.
  intros Hsep. induction s as [|c s IH]; [done|].
  destruct (N.eq_dec c sep) as [->|Hc].
  - rewrite rstrip_by_cons_nonp by done. rewrite !split_cons_sep. cbn [map].
    by rewrite IH.
  - destruct (split_cons_other sep c s Hc) as (f & fs & Es & ->).
    rewrite Es in IH. cbn [map] in *.
    destruct (rstrip_by isspace s) as [|r rs] eqn:Er.
    + cbn in IH. injection IH as IH1 IH2. apply eq_sym, map_eq_nil in IH2 as ->.
      cbn [rstrip_by]. rewrite Er. cbn [rstrip_by]. rewrite <- IH1.
      destruct (isspace c) eqn:Hsp; cbn; [done|].
      apply N.eqb_neq in Hc. rewrite Hc. cbn. by rewrite Hsp.
    + assert (rstrip_by isspace (c :: s) = c :: r :: rs) as ->.
      { cbn. by rewrite Er. }
      destruct (split_cons_other sep c (r :: rs) Hc) as (f' & fs' & Es' & ->).
      rewrite Es' in IH. cbn [map] in *. injection IH as IH1 IH2.
      rewrite IH2. f_equal. cbn [rstrip_by]. by rewrite IH1.
Qed.

Lemma split_lstrip sep s :
  isspace sep = false →
  map strip (split sep (lstrip_by isspace s)) = map strip (split sep s).
Proof.
  intros Hsep. induction s as [|c s IH]; [done|].
  cbn [lstrip_by]. destruct (isspace c) eqn:Hsp; [|done].
  assert (c ≠ sep) as Hc by congruence.
  destruct (split_cons_other sep c s Hc) as (f & fs & Es & ->).
  rewrite IH, Es. cbn [map]. f_equal. unfold strip.
  by rewrite strip_by_cons_p.
Qed.

Lemma split_strip sep s :
  isspace sep = false →
  map strip (split sep (strip s)) = map strip (split sep s).
Proof.
  intros Hsep. unfold strip at 2. unfold strip_by.
  rewrite split_lstrip by done.
  unfold strip, strip_by. rewrite <- !(map_map (rstrip_by isspace) (lstrip_by isspace)).
  by rewrite split_rstrip.
Qed.

Lemma lspl_split line : lspl line = map trim (split COMMA line).
Proof.
  unfold lspl, trim.
  rewrite <- !(map_map strip strip_quotes). by rewrite split_strip.
Qed.

Lemma strip_LF s : strip (s ++ [LF]) = strip s.
Proof. by apply strip_by_snoc. Qed.

Lemma lspl_LF line : lspl (line ++ [LF]) = lspl line.
Proof. unfold lspl. by rewrite strip_LF. Qed.

(** ** Lines of a text *)

Lemma universal_newlines_no_CR b s : CR ∉ universal_newlines b s.
Proof.
  revert b. induction s as [|c s IH]; intros b; cbn; [apply not_elem_of_nil|].
  destruct (N.eqb_spec c CR) as [->|Hc].
  - apply not_elem_of_cons. split; [done|apply IH].
  - destruct ((c =? LF) && b); [apply IH|].
    apply not_elem_of_cons. split; [done|apply IH].
Qed.

Lemma universal_newlines_id s :
  CR ∉ s → universal_newlines false s = s.
Proof.
  induction s as [|c s IH]; [done|]. intros [Hc Hs]%not_elem_of_cons.
  cbn. apply not_eq_sym, N.eqb_neq in Hc. rewrite Hc, andb_false_r.
  by rewrite IH.
Qed.

Lemma readlines_cons_other c t :
  c ≠ LF →
  readlines (c :: t) =
  match readlines t with l :: ls => (c :: l) :: ls | [] => [[c]] end.
Proof. intros Hc; cbn. apply N.eqb_neq in Hc. by rewrite Hc. Qed.

Lemma readlines_app_LF l rest :
  LF ∉ l → readlines (l ++ LF :: rest) = (l ++ [LF]) :: readlines rest.
Proof.
  induction l as [|c l IH]; [done|]. intros [Hc Hl]%not_elem_of_cons.
  cbn [app]. rewrite readlines_cons_other by done. by rewrite IH.
Qed.

Lemma readlines_concat ls :
  Forall (λ l, LF ∉ l) ls →
  readlines (concat (map (λ l, l ++ [LF]) ls)) = map (λ l, l ++ [LF]) ls.
Proof.
  induction 1 as [|l ls Hl _ IH]; [done|].
  cbn [map concat]. rewrite <- app_assoc. cbn [app].
  rewrite readlines_app_LF by done. by rewrite IH.
Qed.

(** A line holds at most one line feed, at its end. *)
Lemma readlines_shape s l :
  l ∈ readlines s →
  ∃ body, (l = body ++ [LF] ∨ l = body) ∧ (LF ∉ body) ∧ (body ⊆ s).
Proof.
  revert l. induction s as [|c s IH]; intros l; [by intros ?%elem_of_nil|].
  cbn. destruct (N.eqb_spec c LF) as [->|Hc].
  - intros [->|Hl]%elem_of_cons.
    + exists []. split; [by left|]. split; set_solver.
    + destruct (IH _ Hl) as (body & ? & ? & ?). exists body. set_solver.
  - destruct (readlines s) as [|l1 ls] eqn:E.
    + intros ->%list_elem_of_singleton. exists [c].
      split; [by right|]. split; set_solver.
    + intros [->|Hl]%elem_of_cons.
      * destruct (IH l1) as (body & Hb & ? & ?); [by left|].
        exists (c :: body). split; [|split].
        -- destruct Hb as [->| ->]; [by left|by right].
        -- set_solver.
        -- set_solver.
      * destruct (IH l) as (body & ? & ? & ?); [by right|].
        exists body. set_solver.
Qed.

Lemma utf_8_sig_subseteq s : utf_8_sig s ⊆ s.
Proof. destruct s as [|c s]; cbn; [done|]. destruct (c =? BOM); set_solver. Qed.

(** The characters of a stripped line of the input. *)
Lemma open_r_strip content line x :
  line ∈ open_r content → x ∈ strip line → x ≠ LF ∧ x ≠ CR.
Proof.
  intros Hl Hx. apply readlines_shape in Hl as (body & Hb & HLF & Hsub).
  assert (x ∈ body) as Hxb.
  { destruct Hb as [->| ->].
    - rewrite strip_LF in Hx. by apply strip_by_elem in Hx.
    - by apply strip_by_elem in Hx. }
  split; intros ->; [done|].
  by apply Hsub, universal_newlines_no_CR in Hxb.
Qed.

(** ** Decimal numbers and run identifiers *)


Lemma digits_isdigit d : Forall isdigit (digits d).
Proof. induction d; cbn; constructor; unfold isdigit; (lia || done). Qed.

Lemma digits_inj d1 d2 : digits d1 = digits d2 → d1 = d2.
Proof.
  revert d2. induction d1; intros []; cbn; try done;
    intros [= H]; f_equal; auto.
Qed.

Lemma str_of_nat_inj n1 n2 : str_of_nat n1 = str_of_nat n2 → n1 = n2.
Proof.
  intros H%digits_inj.
  by rewrite <- (Unsigned.of_to n1), <- (Unsigned.of_to n2), H.
Qed.

Lemma str_of_nat_nonempty n : str_of_nat n ≠ [].
Proof.
  unfold str_of_nat. intros H.
  assert (Nat.to_uint n = Decimal.Nil) as E by (by apply digits_inj).
  pose proof (Unsigned.to_of (Nat.to_uint n)) as Hn.
  rewrite Unsigned.of_to, E in Hn. discriminate Hn.
Qed.

Lemma str_of_nat_isdigit n : Forall isdigit (str_of_nat n).
Proof. apply digits_isdigit. Qed.

(** Two strings that agree after their last occurrence of a marker. *)
Lemma app_marker_inj (m : N) (a1 a2 b1 b2 : str) :
  m ∉ b1 → m ∉ b2 → a1 ++ m :: b1 = a2 ++ m :: b2 → a1 = a2 ∧ b1 = b2.
Proof.
  revert a2. induction a1 as [|x a1 IH]; intros [|y a2] H1 H2; cbn.
  - by intros [= ->].
  - intros [= <- ->]. exfalso. apply H1. set_solver.
  - intros [= -> <-]. exfalso. apply H2. set_solver.
  - intros [= -> E]. destruct (IH a2 H1 H2 E) as [-> ->]. done.
Qed.

Lemma suffixed_inj s1 n1 s2 n2 :
  s1 ++ lit "_T" ++ str_of_nat n1 = s2 ++ lit "_T" ++ str_of_nat n2 →
  s1 = s2 ∧ n1 = n2.
Proof.
  change (lit "_T") with [UNDERSCORE; 84].
  intros E.
  assert (∀ n, 84 ∉ str_of_nat n) as Hd.
  { intros n Hn. pose proof (str_of_nat_isdigit n) as Hf.
    rewrite Forall_forall in Hf. apply Hf in Hn. unfold isdigit in Hn. lia. }
  change (s1 ++ [UNDERSCORE; 84] ++ str_of_nat n1) with
    (s1 ++ [UNDERSCORE] ++ 84 :: str_of_nat n1) in E.
  change (s2 ++ [UNDERSCORE; 84] ++ str_of_nat n2) with
    (s2 ++ [UNDERSCORE] ++ 84 :: str_of_nat n2) in E.
  rewrite !app_assoc in E.
  apply app_marker_inj in E as [E1 E2]; [|apply Hd..].
  apply app_inj_tail in E1 as [-> _]. by apply str_of_nat_inj in E2.
Qed.

Lemma run_id_inj s1 n1 s2 n2 :
  run_id s1 n1 = run_id s2 n2 → s1 = s2 ∧ n1 = n2.
Proof. unfold run_id. intros [-> ?]%suffixed_inj. split; [done|lia]. Qed.

(** ** The order of strings *)

#[export] Instance str_le_refl : Reflexive str_le.
Proof.
  intros a. unfold str_le. induction a as [|x a IH]; cbn; [done|].
  by rewrite N.ltb_irrefl, N.eqb_refl.
Qed.

#[export] Instance str_le_total : Total str_le.
Proof.
  intros a. unfold str_le. induction a as [|x a IH]; intros [|y b]; cbn; auto.
  destruct (N.ltb_spec x y), (N.ltb_spec y x), (N.eqb_spec x y),
    (N.eqb_spec y x); auto; lia.
Qed.

#[export] Instance str_le_trans : Transitive str_le.
Proof.
  intros a. unfold str_le.
  induction a as [|x a IH]; intros [|y b] [|z c]; cbn; try done.
  destruct (N.ltb_spec x y), (N.ltb_spec y z), (N.ltb_spec x z),
    (N.eqb_spec x y), (N.eqb_spec y z), (N.eqb_spec x z);
    try done; try lia; eauto.
Qed.

#[export] Instance str_le_antisymm : AntiSymm (=) str_le.
Proof.
  intros a. unfold str_le. induction a as [|x a IH]; intros [|y b]; cbn; try done.
  destruct (N.ltb_spec x y), (N.ltb_spec y x), (N.eqb_spec x y),
    (N.eqb_spec y x); try done; try lia.
  intros ??. subst. f_equal. auto.
Qed.

Lemma sorted_Permutation l : sorted l ≡ₚ l.
Proof. apply merge_sort_Permutation. Qed.

Lemma sorted_StronglySorted l : StronglySorted str_le (sorted l).
Proof. apply StronglySorted_merge_sort; apply _. Qed.

Lemma StronglySorted_str_lt l :
  NoDup l → StronglySorted str_le l → StronglySorted str_lt l.
Proof.
  induction 1 as [|x l Hx Hl IH]; intros Hs; [constructor|].
  apply StronglySorted_inv in Hs as [Hs Hall]. constructor; [auto|].
  rewrite Forall_forall in *. intros y Hy. split; [auto|].
  intros ->. done.
Qed.

(** Sorting a list without duplicates gives the one strictly increasing
    list with the same elements. *)
Lemma sorted_strict l : NoDup l → StronglySorted str_lt (sorted l).
Proof.
  intros Hl. apply StronglySorted_str_lt; [|apply sorted_StronglySorted].
  by rewrite sorted_Permutation.
Qed.

(** ** Running the parts of the script *)

Lemma check_header_run first_line w :
  check_header first_line w =
  let header := map strip_quotes (split COMMA (strip first_line)) in
  if bool_decide (take (length HEADER) header ≠ HEADER) then
    (SystemExit 1,
     World (stdout w ++
              [lit "ERROR: Please check samplesheet header -> "
                 ++ join (lit ",") header ++ lit " != "
                 ++ join (lit ",") HEADER])
           (file_out w))
  else (Return (), w).
Proof. unfold check_header. cbv zeta. by case_bool_decide. Qed.

Lemma populate_run (line species : str) (species_info : list str)
    (d : gmap str (list (list str))) w :
  populate line species species_info d w =
  match d !! species with
  | None => (Return (<[species := [species_info]]> d), w)
  | Some l =>
      if bool_decide (species_info ∈ l) then
        (SystemExit 1,
         fatal (lit "Samplesheet contains duplicate rows!") line w)
      else (Return (<[species := l ++ [species_info]]> d), w)
  end.
Proof.
  unfold populate. destruct (d !! species); [|done]. by case_bool_decide.
Qed.

Lemma read_entries_cons (line : str) (rest : list str)
    (d : gmap str (list (list str))) w :
  read_entries (line :: rest) d w =
  if bool_decide (strip line ≠ []) then
    match check_row line w with
    | (Return (species, species_info), w1) =>
        match populate line species species_info d w1 with
        | (Return d', w2) => read_entries rest d' w2
        | (SystemExit code, w2) => (SystemExit code, w2)
        | (Raised e, w2) => (Raised e, w2)
        end
    | (SystemExit code, w1) => (SystemExit code, w1)
    | (Raised e, w1) => (Raised e, w1)
    end
  else read_entries rest d w.
Proof.
  cbn [read_entries]. case_bool_decide; [|done].
  rewrite bind_unfold. destruct (check_row line w) as [[[s i]|c|e] w1]; done.
Qed.

Lemma for_ext {A} (l : list A) (body body' : A → M unit) w :
  (∀ x w, body x w = body' x w) → for_ l body w = for_ l body' w.
Proof.
  intros H. revert w. induction l as [|x l IH]; intros w; [done|].
  cbn [for_]. rewrite !bind_unfold, H.
  by destruct (body' x w) as [[[]|c|e] w1].
Qed.

(** A loop each round of which appends to the output file. *)
Lemma for_append {A} (l : list A) (body : A → M unit) (f : A → str) out c :
  (∀ x out c,
     body x (World out (Some c)) = (Return (), World out (Some (c ++ f x)))) →
  for_ l body (World out (Some c)) =
  (Return (), World out (Some (c ++ concat (map f l)))).
Proof.
  intros H. revert c. induction l as [|x l IH]; intros c; cbn [for_ map concat].
  - by rewrite app_nil_r.
  - rewrite bind_unfold, H, IH. by rewrite app_assoc.
Qed.


Lemma write_samplesheet_run (d : gmap str (list (list str))) w :
  write_samplesheet d w =
  (Return (),
   World (stdout w)
     (Some (header_line ++
            concat (map (λ species, out_block species (d !!! species))
                      (sorted (map fst (map_to_list d))))))).
Proof.
  unfold write_samplesheet. rewrite !bind_unfold.
  unfold open_w, fout_write. cbn [stdout file_out default app].
  apply for_append. intros species out c. unfold out_block.
  rewrite (for_ext _ _ (λ x, fout_write (out_line species x.1 x.2)))
    by (by intros []).
  erewrite for_append; [|done].
  do 4 f_equal. unfold enumerate.
  change (map ?g ?l) with (g <$> l). by rewrite fmap_imap.
Qed.

(** ** The rows of an input and the dictionary *)


Lemma warned_file_out species w : file_out (warned species w) = file_out w.
Proof. unfold warned. by destruct (contains SPACE species). Qed.

Ltac break_ifs :=
  repeat match goal with
         | |- context [if ?b then _ else _] => destruct b eqn:?
         end.

Ltac row_cases line :=
  rewrite ?check_row_run;
  destruct (lspl line) as [|? [|? [|? [|? [|? [|? ?]]]]]] eqn:?;
  break_ifs.

Lemma check_row_outcome line w w' :
  (check_row line w).1 = (check_row line w').1.
Proof. by row_cases line. Qed.

Lemma check_row_file_out line w :
  file_out (check_row line w).2 = file_out w.
Proof. row_cases line; cbn; by rewrite ?warned_file_out. Qed.

Lemma check_row_validated line w r w' :
  check_row line w = (Return r, w') → validated line r.
Proof.
  intros H w1. pose proof (check_row_outcome line w w1) as Ho.
  pose proof (check_row_file_out line w1) as Hf.
  rewrite H in Ho. destruct (check_row line w1) as [o w2]. cbn in *.
  subst o. eauto.
Qed.

Lemma check_row_not_Raised line w e w' : check_row line w ≠ (Raised e, w').
Proof.
  rewrite check_row_run.
  case_bool_decide as Hlen; [done|]. case_bool_decide; [done|].
  destruct (lspl line) as [|? [|? [|? [|? [|? [|? ?]]]]]];
    try (cbn in Hlen; lia).
  by break_ifs.
Qed.

Lemma check_row_exit_code line w code w' :
  check_row line w = (SystemExit code, w') → code = 1%Z.
Proof. row_cases line; by intros [= <- _]. Qed.

Lemma remainders_app species recs1 recs2 :
  remainders species (recs1 ++ recs2) =
  remainders species recs1 ++ remainders species recs2.
Proof. unfold remainders. by rewrite filter_app, fmap_app. Qed.

Lemma remainders_elem species info recs :
  info ∈ remainders species recs ↔ (species, info) ∈ recs.
Proof.
  unfold remainders. rewrite list_elem_of_fmap. split.
  - intros ([s i] & -> & [Hs ?]%list_elem_of_filter). cbn in Hs. by subst.
  - intros H. exists (species, info). split; [done|].
    by apply list_elem_of_filter.
Qed.

Lemma remainders_nil species recs :
  remainders species recs = [] ↔ species ∉ recs.*1.
Proof.
  unfold remainders. induction recs as [|[s i] recs IH].
  - split; [intros _; apply not_elem_of_nil|done].
  - rewrite filter_cons, fmap_cons, not_elem_of_cons. cbn [fst].
    destruct (decide (s = species)) as [->|Hs].
    + split; [done|]. by intros [].
    + rewrite IH. naive_solver.
Qed.

Lemma grouped_empty : grouped [] ∅.
Proof. intros s. by rewrite lookup_empty. Qed.

(** One round of lines 115 to 121 keeps the dictionary in step with the
    records. *)
Lemma populate_grouped (line species : str) (info : list str)
    (recs : list (str * list str)) (d : gmap str (list (list str))) w :
  grouped recs d →
  populate line species info d w =
  if bool_decide ((species, info) ∈ recs) then
    (SystemExit 1, fatal (lit "Samplesheet contains duplicate rows!") line w)
  else (Return (<[species := remainders species recs ++ [info]]> d), w).
Proof.
  intros Hg. rewrite populate_run, (Hg species).
  case_decide as Hn.
  - rewrite bool_decide_eq_false_2; [by rewrite Hn|].
    rewrite <- remainders_elem, Hn. apply not_elem_of_nil.
  - rewrite <- (bool_decide_ext _ _ (remainders_elem species info recs)).
    done.
Qed.

Lemma remainders_singleton species s info :
  remainders species [(s, info)] = if decide (s = species) then [info] else [].
Proof.
  unfold remainders. rewrite filter_cons, filter_nil. cbn [fst].
  by destruct (decide (s = species)).
Qed.

Lemma grouped_insert (species : str) (info : list str)
    (recs : list (str * list str)) (d : gmap str (list (list str))) :
  grouped recs d →
  grouped (recs ++ [(species, info)])
    (<[species := remainders species recs ++ [info]]> d).
Proof.
  intros Hg s. rewrite remainders_app, remainders_singleton.
  destruct (decide (species = s)) as [->|Hs].
  - rewrite lookup_insert_eq. case_decide as E; [|done].
    by apply app_eq_nil in E as [_ ?].
  - rewrite lookup_insert_ne by done. rewrite app_nil_r. apply Hg.
Qed.


Lemma data_lines_cons line lines :
  data_lines (line :: lines) =
  if bool_decide (strip line ≠ []) then line :: data_lines lines
  else data_lines lines.
Proof.
  unfold data_lines. rewrite filter_cons.
  case_bool_decide; by case_decide.
Qed.

Lemma read_entries_Return (lines : list str) (pre : list (str * list str))
    (d d' : gmap str (list (list str))) w w' :
  grouped pre d → NoDup pre →
  read_entries lines d w = (Return d', w') →
  ∃ recs, Forall2 validated (data_lines lines) recs ∧
          grouped (pre ++ recs) d' ∧ NoDup (pre ++ recs) ∧
          file_out w' = file_out w.
Proof.
  revert pre d w. induction lines as [|line lines IH]; intros pre d w Hg Hnd.
  - intros [= -> ->]. exists []. rewrite app_nil_r. by repeat split.
  - rewrite read_entries_cons, data_lines_cons.
    case_bool_decide as Hblank; [|by apply IH].
    destruct (check_row line w) as [[[species info]|c|e] w1] eqn:Hrow; try done.
    rewrite (populate_grouped _ _ _ pre) by done.
    case_bool_decide as Hdup; [done|].
    intros H. eapply (IH (pre ++ [(species, info)])) in H as (recs & ? & ? & ? & Hf).
    + exists ((species, info) :: recs). rewrite <- app_assoc in *.
      split; [|split; [done|split; [done|]]].
      * constructor; [|done]. by eapply check_row_validated.
      * rewrite Hf. pose proof (check_row_file_out line w) as Hw.
        by rewrite Hrow in Hw.
    + by apply grouped_insert.
    + apply NoDup_app. split; [done|]. split; [|apply NoDup_singleton].
      intros x Hx ->%list_elem_of_singleton. done.
Qed.

Lemma read_entries_success (lines : list str) (pre recs : list (str * list str))
    (d : gmap str (list (list str))) w :
  grouped pre d → Forall2 validated (data_lines lines) recs →
  NoDup (pre ++ recs) →
  ∃ d' w', read_entries lines d w = (Return d', w') ∧
           grouped (pre ++ recs) d' ∧ file_out w' = file_out w.
Proof.
  revert pre recs d w.
  induction lines as [|line lines IH]; intros pre recs d w Hg Hv Hnd.
  - apply Forall2_nil_inv_l in Hv as ->. exists d, w.
    rewrite app_nil_r. by repeat split.
  - rewrite read_entries_cons. rewrite data_lines_cons in Hv.
    case_bool_decide as Hblank; [|by apply IH].
    apply Forall2_cons_inv_l in Hv as ([species info] & recs' & Hr & Hv & ->).
    destruct (Hr w) as (w1 & -> & Hw1).
    rewrite (populate_grouped _ _ _ pre) by done.
    rewrite bool_decide_eq_false_2.
    2:{ apply NoDup_app in Hnd as (_ & Hnd & _). intros Hin.
        apply (Hnd _ Hin). by left. }
    assert (pre ++ (species, info) :: recs'
            = (pre ++ [(species, info)]) ++ recs') as E
      by (by rewrite <- app_assoc).
    rewrite E in *.
    destruct (IH (pre ++ [(species, info)]) recs'
                (<[species := remainders species pre ++ [info]]> d) w1)
      as (d' & w' & -> & ? & Hf); [by apply grouped_insert|done|done|].
    exists d', w'. repeat split; [done|]. by rewrite Hf.
Qed.

Lemma read_entries_outcome (lines : list str)
    (d : gmap str (list (list str))) w :
  ∃ w', file_out w' = file_out w ∧
        ((∃ d', read_entries lines d w = (Return d', w')) ∨
         read_entries lines d w = (SystemExit 1, w')).
Proof.
  revert d w. induction lines as [|line lines IH]; intros d w.
  - exists w. split; [done|]. left. by exists d.
  - rewrite read_entries_cons. case_bool_decide; [|apply IH].
    pose proof (check_row_file_out line w) as Hf.
    destruct (check_row line w) as [[[species info]|c|e] w1] eqn:Hrow.
    + rewrite populate_run. cbn in Hf.
      destruct (d !! species) as [l|].
      * case_bool_decide.
        -- eexists. split; [|by right]. done.
        -- destruct (IH (<[species := l ++ [info]]> d) w1) as (w' & ? & ?).
           exists w'. split; [congruence|done].
      * destruct (IH (<[species := [info]]> d) w1) as (w' & ? & ?).
        exists w'. split; [congruence|done].
    + apply check_row_exit_code in Hrow as Hc. subst c.
      exists w1. split; [done|by right].
    + by apply check_row_not_Raised in Hrow.
Qed.

(** What the checks of a row amount to. *)
Lemma validated_iff line r :
  validated line r ↔
  ∃ species file tax1 tax2 mode uniprot rest,
    lspl line = species :: file :: tax1 :: tax2 :: mode :: uniprot :: rest ∧
    (MIN_COLS ≤ num_cols line)%nat ∧
    canonical species ≠ [] ∧
    (file ≠ [] → contains SPACE file = false) ∧
    fasta_ok file = true ∧
    r = (canonical species, [file; tax1; tax2; mode; uniprot]).
Proof.
  split.
  - intros H. destruct (H (World [] None)) as (w' & Hrow & _). revert Hrow.
    rewrite check_row_run.
    case_bool_decide as Hlen; [done|]. case_bool_decide as Hnum; [done|].
    destruct (lspl line) as [|species [|file [|tax1 [|tax2 [|mode [|uniprot rest]]]]]];
      try done.
    case_bool_decide as Hsp; [done|].
    destruct (bool_decide (file ≠ []) && contains SPACE file) eqn:Hspace; [done|].
    destruct (fasta_ok file) eqn:Hok; [|done].
    intros [= <- _]. exists species, file, tax1, tax2, mode, uniprot, rest.
    repeat split; try done; [lia|].
    intros Hf. rewrite bool_decide_eq_true_2 in Hspace by done. done.
  - intros (species & file & tax1 & tax2 & mode & uniprot & rest
            & Hl & Hnum & Hsp & Hspace & Hok & ->) w.
    exists (warned species w). split; [|apply warned_file_out].
    rewrite check_row_run, Hl.
    rewrite bool_decide_eq_false_2 by (cbn; lia).
    rewrite bool_decide_eq_false_2 by lia.
    rewrite bool_decide_eq_false_2 by done.
    rewrite Hok. cbn [negb].
    destruct (decide (file = [])) as [->|Hf].
    + by rewrite bool_decide_eq_false_2 by (by intros []).
    + by rewrite Hspace, andb_false_r.
Qed.

Lemma grouped_lookup_total (recs : list (str * list str))
    (d : gmap str (list (list str))) species :
  grouped recs d → d !!! species = remainders species recs.
Proof.
  intros Hg. rewrite lookup_total_alt, (Hg species).
  by case_decide as E; [rewrite E|].
Qed.

Lemma grouped_keys (recs : list (str * list str))
    (d : gmap str (list (list str))) species :
  grouped recs d → species ∈ (map_to_list d).*1 ↔ species ∈ recs.*1.
Proof.
  intros Hg. rewrite list_elem_of_fmap. split.
  - intros ([s l] & -> & H%elem_of_map_to_list). cbn.
    rewrite (Hg s) in H. case_decide as E; [done|].
    destruct (decide (s ∈ recs.*1)) as [|Hn]; [done|].
    by apply remainders_nil in Hn.
  - intros H. exists (species, remainders species recs). split; [done|].
    apply elem_of_map_to_list. rewrite (Hg species).
    case_decide as E; [|done]. by apply remainders_nil in E.
Qed.

Lemma grouped_size (recs : list (str * list str))
    (d : gmap str (list (list str))) :
  grouped recs d → (0 < size d)%nat ↔ recs ≠ [].
Proof.
  intros Hg. split.
  - intros Hs -> . assert (d = ∅) as E.
    { apply map_eq. intros s. by rewrite (Hg s), lookup_empty. }
    rewrite E, map_size_empty in Hs. lia.
  - intros Hr. destruct recs as [|[s i] recs]; [done|].
    destruct (decide (size d = 0%nat)) as [E|]; [|lia].
    apply map_size_empty_iff in E. subst d.
    specialize (Hg s). rewrite lookup_empty in Hg.
    case_decide as E; [|done].
    apply remainders_nil in E. exfalso. apply E. by left.
Qed.

Lemma check_samplesheet_run content w :
  check_samplesheet content w =
  match check_header (hd [] (open_r content)) w with
  | (Return _, w1) =>
      match read_entries (tl (open_r content)) ∅ w1 with
      | (Return d, w2) =>
          if bool_decide (0 < size d)%nat then write_samplesheet d w2
          else (SystemExit 1,
                World (stdout w2
                         ++ [lit "ERROR: Please check samplesheet -> No entries to process!"])
                  (file_out w2))
      | (SystemExit code, w2) => (SystemExit code, w2)
      | (Raised e, w2) => (Raised e, w2)
      end
  | (SystemExit code, w1) => (SystemExit code, w1)
  | (Raised e, w1) => (Raised e, w1)
  end.
Proof.
  unfold check_samplesheet. cbv zeta. rewrite !bind_unfold.
  destruct (check_header _ w) as [[[]|c|e] w1]; try done.
  rewrite bind_unfold.
  destruct (read_entries _ ∅ w1) as [[d|c|e] w2]; try done.
  by case_bool_decide.
Qed.


Lemma write_grouped (recs : list (str * list str))
    (d : gmap str (list (list str))) w :
  grouped recs d →
  ∃ keys,
    StronglySorted str_lt keys ∧ (∀ s, s ∈ keys ↔ s ∈ recs.*1) ∧
    write_samplesheet d w =
    (Return (), World (stdout w) (Some (out_text keys recs))).
Proof.
  intros Hg. exists (sorted (map_to_list d).*1). split; [|split].
  - apply sorted_strict, NoDup_fst_map_to_list.
  - intros s. rewrite sorted_Permutation. by apply grouped_keys.
  - rewrite write_samplesheet_run. unfold out_text. do 5 f_equal.
    apply map_ext. intros s. by rewrite (grouped_lookup_total recs).
Qed.

Lemma check_samplesheet_Return content w w' :
  check_samplesheet content w = (Return (), w') →
  ∃ recs keys,
    header_ok content ∧
    Forall2 validated (data_lines (tl (open_r content))) recs ∧
    NoDup recs ∧ recs ≠ [] ∧
    StronglySorted str_lt keys ∧ (∀ s, s ∈ keys ↔ s ∈ recs.*1) ∧
    file_out w' = Some (out_text keys recs).
Proof.
  rewrite check_samplesheet_run, check_header_run. cbv zeta.
  case_bool_decide as Hh; [done|].
  destruct (read_entries _ ∅ w) as [[d|c|e] w2] eqn:Hread; try done.
  apply (read_entries_Return _ []) in Hread as (recs & Hv & Hg & Hnd & Hf);
    [|apply grouped_empty|constructor].
  cbn [app] in *.
  case_bool_decide as Hsize; [|done].
  destruct (write_grouped recs d w2 Hg) as (keys & ? & ? & ->).
  intros [= <-]. exists recs, keys. cbn.
  split; [|split; [done|split; [done|split; [|done]]]].
  - done.
  - by apply (grouped_size recs d).
Qed.

Lemma check_samplesheet_success content (recs : list (str * list str)) w :
  header_ok content →
  Forall2 validated (data_lines (tl (open_r content))) recs →
  NoDup recs → recs ≠ [] →
  ∃ keys w',
    StronglySorted str_lt keys ∧ (∀ s, s ∈ keys ↔ s ∈ recs.*1) ∧
    check_samplesheet content w = (Return (), w') ∧
    file_out w' = Some (out_text keys recs).
Proof.
  intros Hh Hv Hnd Hne.
  rewrite check_samplesheet_run, check_header_run. cbv zeta.
  rewrite bool_decide_eq_false_2 by (by intros ?).
  destruct (read_entries_success _ [] recs ∅ w grouped_empty Hv Hnd)
    as (d & w2 & -> & Hg & _).
  cbn [app] in Hg.
  rewrite bool_decide_eq_true_2 by (by apply (grouped_size recs d)).
  destruct (write_grouped recs d w2 Hg) as (keys & ? & ? & ->).
  exists keys. eexists. split; [done|]. split; [done|]. split; reflexivity.
Qed.

(** ** Telling the error messages apart *)

Lemma error_str_inj e1 e2 context context_str :
  error_str e1 context context_str = error_str e2 context context_str →
  e1 = e2.
Proof.
  unfold error_str. destruct (_ && _).
  - intros H%app_inv_head. by apply app_inv_tail in H.
  - by intros H%app_inv_head.
Qed.

Lemma fatal_inj e1 e2 line w1 w2 :
  fatal e1 line w1 = fatal e2 line w2 → e1 = e2 ∧ stdout w1 = stdout w2.
Proof.
  unfold fatal. intros [= H]. apply app_inj_tail in H as [? H].
  by apply error_str_inj in H.
Qed.

Lemma warned_stdout species w :
  stdout (warned species w) =
  stdout w ++ (if contains SPACE species then [warning species] else []).
Proof.
  unfold warned. destruct (contains SPACE species); [done|].
  by rewrite app_nil_r.
Qed.

Ltac lit_neq :=
  let H := fresh in intros H; vm_compute in H; discriminate H.

Lemma endswith_spec suffix s :
  endswith suffix s = true ↔ ∃ prefix, s = prefix ++ suffix.
Proof.
  unfold endswith. rewrite andb_true_iff, !bool_decide_eq_true. split.
  - intros [H _]. exists (take (length s - length suffix) s).
    rewrite <- H at 2. by rewrite take_drop.
  - intros [prefix ->]. rewrite length_app. split; [|lia].
    replace (length prefix + length suffix - length suffix)%nat
      with (length prefix) by lia.
    by rewrite drop_app_length.
Qed.



Lemma contains_spec c s : contains c s = true ↔ c ∈ s.
Proof.
  unfold contains. rewrite existsb_exists. split.
  - intros (x & Hx%list_elem_of_In & ->%N.eqb_eq). done.
  - intros H. exists c. by rewrite N.eqb_refl, <- list_elem_of_In.
Qed.

(** ** Rows with too few populated columns *)

Lemma num_cols_length line :
  (MIN_COLS ≤ num_cols line)%nat → (length HEADER ≤ length (lspl line))%nat.
Proof.
  intros H. pose proof (length_filter (λ x, x ≠ []) (lspl line)) as Hle.
  unfold num_cols, MIN_COLS in *. cbn [length HEADER]. lia.
Qed.

Lemma too_few_populated line w :
  (length HEADER ≤ length (lspl line))%nat →
  (num_cols line < MIN_COLS)%nat →
  check_row line w =
  (SystemExit 1,
   fatal (lit "Invalid number of populated columns (minimum = 6)!") line w).
Proof.
  intros Hlen Hnum. rewrite check_row_run.
  rewrite bool_decide_eq_false_2 by lia.
  by rewrite bool_decide_eq_true_2 by done.
Qed.

(** ** Appending lines *)

Lemma read_entries_app (l1 l2 : list str)
    (d : gmap str (list (list str))) w :
  read_entries (l1 ++ l2) d w =
  match read_entries l1 d w with
  | (Return d1, w1) => read_entries l2 d1 w1
  | other => other
  end.
Proof.
  revert d w. induction l1 as [|line l1 IH]; intros d w; [done|].
  cbn [app]. rewrite !read_entries_cons.
  case_bool_decide; [|apply IH].
  destruct (check_row line w) as [[[species info]|c|e] w1]; try done.
  destruct (populate line species info d w1) as [[d1|c|e] w2]; try done.
Qed.

Lemma NoDup_remainders species (recs : list (str * list str)) :
  NoDup recs → NoDup (remainders species recs).
Proof.
  intros Hnd. unfold remainders. apply NoDup_fmap_2_strong.
  - intros [s1 i1] [s2 i2] [H1 _]%list_elem_of_filter [H2 _]%list_elem_of_filter.
    cbn in *. congruence.
  - by apply NoDup_filter.
Qed.

(** ** The rows of the output *)


Lemma out_text_rows keys recs :
  out_text keys recs =
  header_line ++ concat (map (λ r, row_line r ++ [LF]) (out_rows keys recs)).
Proof.
  unfold out_text, out_rows. f_equal.
  induction keys as [|s keys IH]; [done|].
  cbn [map concat]. rewrite map_app, concat_app, <- IH. f_equal.
  unfold out_block. f_equal.
  change (map ?f ?l) with (f <$> l). by rewrite fmap_imap.
Qed.

Lemma elem_of_concat {A} (x : A) (ls : list (list A)) :
  x ∈ concat ls ↔ ∃ l, l ∈ ls ∧ x ∈ l.
Proof.
  induction ls as [|l ls IH]; cbn.
  - split; [by intros ?%elem_of_nil|]. by intros (l & ?%elem_of_nil & _).
  - rewrite elem_of_app, IH. split.
    + intros [H|(l' & ? & ?)]; [exists l; split; [by left|done]|].
      exists l'. split; [by right|done].
    + intros (l' & [->|?]%elem_of_cons & ?); [by left|]. right. by exists l'.
Qed.

Lemma out_rows_elem keys recs r :
  r ∈ out_rows keys recs →
  ∃ species idx val,
    r = (run_id species idx, val) ∧ species ∈ keys ∧ (species, val) ∈ recs.
Proof.
  unfold out_rows. intros (l & Hl & Hr)%elem_of_concat.
  apply list_elem_of_fmap in Hl as (s & -> & Hs).
  apply elem_of_lookup_imap_1 in Hr as (i & v & -> & Hv).
  exists s, i, v. split; [done|]. split; [done|].
  apply remainders_elem. by eapply list_elem_of_lookup_2.
Qed.

Lemma out_rows_NoDup keys recs :
  NoDup keys → NoDup (out_rows keys recs).*1.
Proof.
  unfold out_rows. induction 1 as [|s keys Hs Hnd IH]; [constructor|].
  cbn [map concat]. rewrite fmap_app. apply NoDup_app. split; [|split; [|done]].
  - apply NoDup_alt. intros i j x.
    rewrite !list_lookup_fmap, !list_lookup_imap.
    destruct (remainders s recs !! i) as [vi|]; [|done].
    destruct (remainders s recs !! j) as [vj|]; [|done].
    cbn. intros [= <-] [= H]. apply run_id_inj in H as [_ H]. done.
  - intros x Hx Hx'.
    apply list_elem_of_fmap in Hx as ([x1 v1] & -> & Hx).
    apply elem_of_lookup_imap_1 in Hx as (i & v & [= -> ->] & _).
    apply list_elem_of_fmap in Hx' as (r & Hr & Hin).
    apply out_rows_elem in Hin as (s' & j & v' & -> & Hs' & _).
    cbn in Hr. apply run_id_inj in Hr as [-> _]. done.
Qed.

Lemma trim_elem x f : x ∈ trim f → x ∈ f.
Proof. unfold trim, strip_quotes, strip. by intros ?%strip_by_elem%strip_by_elem. Qed.

Lemma lspl_plain content line f :
  line ∈ open_r content → f ∈ lspl line → plain f.
Proof.
  intros Hl Hf. unfold lspl in Hf.
  apply list_elem_of_fmap in Hf as (g & -> & Hg).
  assert (∀ x, x ∈ trim g → x ≠ COMMA ∧ x ≠ LF ∧ x ≠ CR) as H.
  { intros x Hx%trim_elem. destruct (split_elem _ _ _ _ Hg Hx) as [Hs ?].
    destruct (open_r_strip _ _ _ Hl Hs). done. }
  repeat split; intros Hx%H; naive_solver.
Qed.

Lemma canonical_plain species : plain species → plain (canonical species).
Proof.
  unfold canonical. destruct (contains SPACE species); [|done].
  unfold plain, replace. intros (? & ? & ?).
  repeat split; intros (c & Hc & ?)%list_elem_of_fmap;
    destruct (c =? SPACE); try done; by subst.
Qed.

Lemma canonical_no_space species : SPACE ∉ canonical species.
Proof.
  unfold canonical. destruct (contains SPACE species) eqn:E.
  - unfold replace. intros (c & Hc & ?)%list_elem_of_fmap.
    destruct (N.eqb_spec c SPACE); [done|]. by subst.
  - intros H%contains_spec. congruence.
Qed.


Lemma validated_well_formed content line r :
  line ∈ open_r content → validated line r → well_formed r.
Proof.
  intros Hl (species & file & tax1 & tax2 & mode & uniprot & rest
             & Hlspl & _ & Hsp & Hspace & Hok & ->)%validated_iff.
  assert (∀ f, f ∈ [species; file; tax1; tax2; mode; uniprot] → plain f) as Hp.
  { intros f Hf. apply (lspl_plain content line); [done|].
    rewrite Hlspl. set_solver. }
  split; [done|]. split; [apply canonical_no_space|].
  split; [apply canonical_plain, Hp; set_solver|].
  exists file, tax1, tax2, mode, uniprot. split; [done|]. split.
  - cbn. repeat constructor; apply Hp; set_solver.
  - intros Hf. specialize (Hspace Hf). split.
    + rewrite <- contains_spec. congruence.
    + unfold fasta_ok in Hok. rewrite bool_decide_eq_false_2 in Hok by done.
      rewrite Hspace in Hok. cbn in Hok. by apply orb_true_iff in Hok.
Qed.

Lemma validated_rows_well_formed content recs :
  Forall2 validated (data_lines (tl (open_r content))) recs →
  Forall well_formed recs.
Proof.
  intros Hv. eapply Forall2_Forall_r; [done|].
  apply Forall_forall. intros line Hline r Hval.
  apply (validated_well_formed content line); [|done].
  apply list_elem_of_filter in Hline as [_ Hline].
  destruct (open_r content); [done|]. by right.
Qed.

(** ** Reading the output back *)

Lemma plain_app a b : plain a → plain b → plain (a ++ b).
Proof. unfold plain. rewrite !not_elem_of_app. naive_solver. Qed.

Lemma not_elem_of_digits c n : ¬ isdigit c → c ∉ str_of_nat n.
Proof.
  intros Hc Hin. pose proof (str_of_nat_isdigit n) as Hd.
  rewrite Forall_forall in Hd. by apply Hd in Hin.
Qed.

Lemma run_id_plain species idx : plain species → plain (run_id species idx).
Proof.
  intros Hs. unfold run_id. apply plain_app; [done|]. apply plain_app.
  - unfold plain. change (lit "_T") with [95; 84].
    rewrite !not_elem_of_cons. repeat split; (done || apply not_elem_of_nil).
  - repeat split; apply not_elem_of_digits; unfold isdigit, COMMA, LF, CR; lia.
Qed.

Lemma join_plain (fs : list str) :
  Forall plain fs → (LF ∉ join (lit ",") fs) ∧ (CR ∉ join (lit ",") fs).
Proof.
  induction 1 as [|f fs Hf Hfs IH]; [split; apply not_elem_of_nil|].
  destruct fs as [|g fs]; [by destruct Hf as (? & ? & ?)|].
  change (join (lit ",") (f :: g :: fs))
    with (f ++ [COMMA] ++ join (lit ",") (g :: fs)).
  destruct Hf as (? & ? & ?), IH as [? ?].
  rewrite !not_elem_of_app, !not_elem_of_cons.
  repeat split; (done || apply not_elem_of_nil).
Qed.


Lemma out_rows_ok keys recs r :
  Forall well_formed recs → r ∈ out_rows keys recs → row_ok r.
Proof.
  intros Hwf (species & idx & val & -> & _ & Hin)%out_rows_elem.
  rewrite Forall_forall in Hwf. pose proof (Hwf _ Hin) as Hr.
  destruct Hr as (? & ? & ? & file & tax1 & tax2 & mode & uniprot & Hv & ?).
  cbn in Hv. subst val.
  exists species, idx, file, tax1, tax2, mode, uniprot. split; [done|].
  by apply Hwf.
Qed.

Lemma row_ok_line r :
  row_ok r → (LF ∉ row_line r) ∧ (CR ∉ row_line r).
Proof.
  intros (species & idx & file & tax1 & tax2 & mode & uniprot & -> & Hwf).
  destruct Hwf as (_ & _ & Hs & ? & ? & ? & ? & ? & [= <- <- <- <- <-] & Hp & _).
  apply join_plain. constructor; [by apply run_id_plain|done].
Qed.

Lemma header_line_eq :
  header_line = lit "species,file,tax1,tax2,mode,uniprot" ++ [LF].
Proof. reflexivity. Qed.

Lemma out_text_lines keys recs :
  out_text keys recs =
  concat (map (λ l, l ++ [LF])
            (lit "species,file,tax1,tax2,mode,uniprot"
               :: map row_line (out_rows keys recs))).
Proof.
  rewrite out_text_rows. cbn [map concat]. rewrite <- header_line_eq.
  f_equal. by rewrite map_map.
Qed.

Lemma elem_of_lines (x : N) (ls : list str) :
  x ∈ concat (map (λ l, l ++ [LF]) ls) → x = LF ∨ ∃ l, l ∈ ls ∧ x ∈ l.
Proof.
  intros (l' & Hl' & Hx)%elem_of_concat.
  apply list_elem_of_fmap in Hl' as (l & -> & Hl).
  apply elem_of_app in Hx as [?| ->%list_elem_of_singleton]; [|by left].
  right. by exists l.
Qed.

Lemma open_r_out_text keys recs :
  Forall well_formed recs →
  open_r (out_text keys recs) =
  (lit "species,file,tax1,tax2,mode,uniprot" ++ [LF])
    :: map (λ r, row_line r ++ [LF]) (out_rows keys recs).
Proof.
  intros Hwf. unfold open_r.
  assert (utf_8_sig (out_text keys recs) = out_text keys recs) as ->
    by reflexivity.
  assert (∀ l, l ∈ lit "species,file,tax1,tax2,mode,uniprot"
                     :: map row_line (out_rows keys recs) →
               (LF ∉ l) ∧ (CR ∉ l)) as Hl.
  { intros l [->|Hl]%elem_of_cons.
    - split; apply (bool_decide_unpack _); vm_compute; exact I.
    - apply list_elem_of_fmap in Hl as (r & -> & Hr).
      by eapply row_ok_line, out_rows_ok. }
  rewrite out_text_lines.
  rewrite universal_newlines_id.
  - rewrite readlines_concat.
    + cbn [map]. by rewrite map_map.
    + apply Forall_forall. intros l Hin. by apply Hl.
  - intros [?|(l & Hin & Hx)]%elem_of_lines; [done|].
    by apply Hl in Hin as [_ ?].
Qed.

Lemma StronglySorted_str_lt_NoDup keys : StronglySorted str_lt keys → NoDup keys.
Proof.
  induction 1 as [|s keys _ IH Hall]; constructor; [|done].
  intros Hin. rewrite Forall_forall in Hall. by destruct (Hall _ Hin).
Qed.

Lemma row_ok_species_column r :
  row_ok r → hd [] (split COMMA (row_line r ++ [LF])) = r.1.
Proof.
  intros (species & idx & file & tax1 & tax2 & mode & uniprot & -> & Hwf).
  destruct Hwf as (_ & _ & Hs & _).
  apply (run_id_plain _ idx) in Hs as [Hc _]. cbn [fst snd].
  change (row_line (run_id species idx, [file; tax1; tax2; mode; uniprot]))
    with (run_id species idx ++ COMMA
            :: join (lit ",") [file; tax1; tax2; mode; uniprot]).
  rewrite <- app_assoc. cbn [app]. by rewrite split_app.
Qed.

(** ** Trimming again what was trimmed *)

Lemma strip_by_id p s c d :
  head s = Some c → p c = false → last s = Some d → p d = false →
  strip_by p s = s.
Proof.
  intros Hh Hc Hl Hd. unfold strip_by. rewrite (rstrip_by_id p s d) by done.
  destruct s as [|c' s]; [done|]. injection Hh as ->. by apply lstrip_by_id.
Qed.

Lemma lstrip_by_app_clean p a suffix :
  suffix ≠ [] → Forall (λ c, p c = false) suffix →
  lstrip_by p (a ++ suffix) = lstrip_by p a ++ suffix.
Proof.
  intros Hne Hs. induction a as [|c a IH]; cbn.
  - destruct suffix as [|d suffix]; [done|].
    apply Forall_cons in Hs as [Hd _]. cbn. by rewrite Hd.
  - by destruct (p c).
Qed.

Lemma strip_by_app_clean p a suffix :
  suffix ≠ [] → Forall (λ c, p c = false) suffix →
  strip_by p (a ++ suffix) = lstrip_by p a ++ suffix.
Proof.
  intros Hne Hs. unfold strip_by.
  destruct (last suffix) as [d|] eqn:Hl; [|by apply last_None in Hl].
  rewrite (rstrip_by_app_id p a suffix d); [by apply lstrip_by_app_clean|done|].
  rewrite Forall_forall in Hs. apply Hs.
  apply last_Some in Hl as [l' ->]. set_solver.
Qed.

Lemma trim_app_clean a suffix :
  suffix ≠ [] → Forall (λ c, isspace c = false ∧ isquote c = false) suffix →
  trim (a ++ suffix) = lstrip_by isquote (lstrip_by isspace a) ++ suffix.
Proof.
  intros Hne Hs. unfold trim, strip, strip_quotes.
  rewrite strip_by_app_clean, strip_by_app_clean; try done.
  - eapply Forall_impl; [done|]. by intros c [_ ?].
  - eapply Forall_impl; [done|]. by intros c [? _].
Qed.

Lemma trim_endswith suffix f :
  suffix ≠ [] → Forall (λ c, isspace c = false ∧ isquote c = false) suffix →
  endswith suffix f = true → endswith suffix (trim f) = true.
Proof.
  intros Hne Hs [a ->]%endswith_spec. apply endswith_spec.
  rewrite trim_app_clean by done. eauto.
Qed.

Lemma isdigit_clean d : isdigit d → isspace d = false ∧ isquote d = false.
Proof.
  unfold isdigit, isspace, isquote, QUOTE. intros Hd.
  split; [|apply N.eqb_neq; lia].
  apply not_true_is_false.
  rewrite !orb_true_iff, !andb_true_iff, !N.leb_le, !N.eqb_eq. lia.
Qed.


Lemma run_id_last species idx :
  ∃ d, last (run_id species idx) = Some d ∧ isdigit d.
Proof.
  unfold run_id. pose proof (str_of_nat_nonempty (idx + 1)) as Hne.
  pose proof (str_of_nat_isdigit (idx + 1)) as Hd.
  destruct (last (str_of_nat (idx + 1))) as [d|] eqn:Hl;
    [|by apply last_None in Hl].
  exists d. split.
  - rewrite !app_assoc. destruct (str_of_nat (idx + 1)); [done|].
    by rewrite last_app, Hl.
  - rewrite Forall_forall in Hd. apply Hd.
    apply last_Some in Hl as [l' ->]. set_solver.
Qed.

Lemma trim_run_id species idx :
  species ≠ [] → starts_clean species →
  trim (run_id species idx) = run_id species idx.
Proof.
  intros Hne Hc. destruct species as [|c species]; [done|].
  destruct (Hc c) as [Hsp Hq]; [done|].
  destruct (run_id_last (c :: species) idx) as (d & Hl & [Hd1 Hd2]%isdigit_clean).
  unfold trim, strip, strip_quotes.
  rewrite (strip_by_id isspace _ c d); try done.
  by rewrite (strip_by_id isquote _ c d).
Qed.

Lemma run_id_no_space species idx : SPACE ∉ species → SPACE ∉ run_id species idx.
Proof.
  intros Hs. unfold run_id. rewrite !not_elem_of_app. split; [done|]. split.
  - change (lit "_T") with [95; 84]. rewrite !not_elem_of_cons.
    repeat split; (done || apply not_elem_of_nil).
  - apply not_elem_of_digits. unfold isdigit, SPACE. lia.
Qed.

Lemma run_id_nonempty species idx : run_id species idx ≠ [].
Proof.
  destruct (run_id_last species idx) as (d & Hl & _).
  intros E. by rewrite E in Hl.
Qed.

(** ** Running the script on its own output *)


Lemma validated_nonblank line r : validated line r → strip line ≠ [].
Proof.
  intros (species & file & tax1 & tax2 & mode & uniprot & rest
          & Hlspl & _)%validated_iff Hs.
  unfold lspl in Hlspl. by rewrite Hs in Hlspl.
Qed.

Lemma row_revalidated species idx file tax1 tax2 mode uniprot :
  well_formed (species, [file; tax1; tax2; mode; uniprot]) →
  rereadable (species, [file; tax1; tax2; mode; uniprot]) →
  validated
    (row_line (run_id species idx, [file; tax1; tax2; mode; uniprot]) ++ [LF])
    (run_id species idx, map trim [file; tax1; tax2; mode; uniprot]).
Proof.
  intros (Hne & Hsp & Hps & f & a & b & m & u & Heq & Hp & Hfile)
         [Hclean Htrim].
  cbn [fst snd] in *. injection Heq as <- <- <- <- <-.
  assert (lspl (row_line (run_id species idx,
                          [file; tax1; tax2; mode; uniprot]) ++ [LF])
          = run_id species idx
              :: map trim [file; tax1; tax2; mode; uniprot]) as Hlspl.
  { rewrite lspl_LF, lspl_split. unfold row_line. cbn [fst snd].
    change (lit ",") with [COMMA]. rewrite split_join; [|done|].
    - cbn [map]. by rewrite trim_run_id.
    - constructor; [by apply run_id_plain|].
      apply (Forall_impl _ _ _ Hp). intros f' Hf'. apply Hf'. }
  assert (contains SPACE (run_id species idx) = false) as Hnsp.
  { apply not_true_is_false. rewrite contains_spec.
    by apply run_id_no_space. }
  apply validated_iff.
  exists (run_id species idx), (trim file), (trim tax1), (trim tax2),
    (trim mode), (trim uniprot), [].
  assert (Hfile' : trim file ≠ []) by (by apply Forall_cons in Htrim as [? _]).
  assert (file ≠ []) as Hf by (by intros ->).
  destruct (Hfile Hf) as [Hfsp Hext].
  split; [done|]. split; [|split; [|split; [|split]]].
  - unfold num_cols. rewrite Hlspl. cbn [map].
    rewrite !Forall_cons in Htrim. destruct Htrim as (?&?&?&?&?&_).
    pose proof (run_id_nonempty species idx).
    by rewrite !filter_cons_True by done.
  - unfold canonical. rewrite Hnsp. apply run_id_nonempty.
  - intros _. apply not_true_is_false. rewrite contains_spec.
    by intros ?%trim_elem.
  - unfold fasta_ok. rewrite bool_decide_eq_false_2 by done.
    replace (contains SPACE (trim file)) with false.
    2:{ symmetry. apply not_true_is_false. rewrite contains_spec.
        by intros ?%trim_elem. }
    cbn [orb negb andb]. apply orb_true_iff.
    destruct Hext as [Hext|Hext]; [left|right];
      (apply trim_endswith; [done| |done]);
      apply Forall_forall; intros c Hc; apply (bool_decide_unpack _);
      revert c Hc; apply Forall_forall; vm_compute; repeat constructor.
  - unfold canonical. by rewrite Hnsp.
Qed.

Lemma data_lines_validated (lines : list str) (recs : list (str * list str)) :
  Forall2 validated lines recs → Forall2 validated (data_lines lines) recs.
Proof.
  induction 1 as [|line r lines recs Hv _ IH]; [constructor|].
  rewrite data_lines_cons.
  rewrite bool_decide_eq_true_2 by (by eapply validated_nonblank).
  by constructor.
Qed.

Lemma out_rows_revalidated keys recs :
  Forall well_formed recs → Forall rereadable recs →
  Forall2 validated
    (data_lines (map (λ r, row_line r ++ [LF]) (out_rows keys recs)))
    (map (λ r, (r.1, map trim r.2)) (out_rows keys recs)).
Proof.
  intros Hwf Hre. apply data_lines_validated.
  change (map ?f ?l) with (f <$> l). apply Forall2_fmap, Forall_Forall2_diag.
  apply Forall_forall.
  intros r (species & idx & val & -> & _ & Hin)%out_rows_elem.
  rewrite Forall_forall in Hwf, Hre.
  pose proof (Hwf _ Hin) as Hw. pose proof (Hre _ Hin) as Hr.
  destruct Hw as (_ & _ & _ & file & tax1 & tax2 & mode & uniprot & Hv & _).
  cbn in Hv. subst val.
  apply row_revalidated; auto.
Qed.

Lemma remainders_unique (recs : list (str * list str)) species val :
  NoDup recs.*1 → (species, val) ∈ recs → remainders species recs = [val].
Proof.
  induction recs as [|[s v] recs IH]; [by intros _ ?%elem_of_nil|].
  rewrite fmap_cons. intros [Hs Hnd]%NoDup_cons Hin.
  change ((s, v) :: recs) with ([(s, v)] ++ recs).
  rewrite remainders_app, remainders_singleton.
  apply elem_of_cons in Hin as [[= <- <-]|Hin].
  - rewrite decide_True by done.
    assert (remainders species recs = []) as -> by (by apply remainders_nil).
    done.
  - rewrite decide_False; [by apply IH|].
    intros ->. apply Hs. apply list_elem_of_fmap. by exists (species, val).
Qed.

Lemma out_rows_nonempty keys recs :
  (∀ s, s ∈ keys ↔ s ∈ recs.*1) → recs ≠ [] → out_rows keys recs ≠ [].
Proof.
  intros Hk Hne. destruct recs as [|[s v] recs]; [done|].
  assert (s ∈ keys) as Hs by (apply Hk; left).
  assert (v ∈ remainders s ((s, v) :: recs)) as Hv
    by (apply remainders_elem; left).
  apply list_elem_of_lookup in Hv as [i Hi].
  intros E.
  assert ((run_id s i, v) ∈ out_rows keys ((s, v) :: recs)) as Hin.
  { apply elem_of_concat. eexists. split.
    - apply list_elem_of_fmap. by exists s.
    - exact (elem_of_lookup_imap_2
               (λ idx val, (run_id s idx, val)) _ v i Hi). }
  rewrite E in Hin. by apply elem_of_nil in Hin.
Qed.

Lemma out_text_species_column keys recs :
  Forall well_formed recs →
  map (λ line, hd [] (split COMMA line)) (tl (open_r (out_text keys recs)))
  = (out_rows keys recs).*1.
Proof.
  intros Hwf. rewrite open_r_out_text by done. cbn [tl]. rewrite map_map.
  apply map_ext_in. intros r Hr%list_elem_of_In.
  by eapply row_ok_species_column, out_rows_ok.
Qed.

(** The rows of an output each species of which has one record. *)
Lemma out_rows_single keys (recs : list (str * list str)) :
  NoDup recs.*1 → (∀ s, s ∈ keys → s ∈ recs.*1) →
  out_rows keys recs =
  map (λ s, (s ++ lit "_T1", hd [] (remainders s recs))) keys.
Proof.
  intros Hnd Hk. unfold out_rows.
  induction keys as [|s keys IH]; [done|].
  cbn [map concat]. rewrite IH by (intros; apply Hk; by right).
  assert (s ∈ recs.*1) as ([s' v] & Hs & Hin)%list_elem_of_fmap
    by (apply Hk; left).
  cbn in Hs. subst s'. rewrite (remainders_unique recs s v) by done.
  reflexivity.
Qed.

(** The records of such an input, in the order of its species. *)
Lemma single_rows_Permutation keys (recs : list (str * list str)) :
  NoDup keys → NoDup recs.*1 → (∀ s, s ∈ keys ↔ s ∈ recs.*1) →
  map (λ s, (s, hd [] (remainders s recs))) keys ≡ₚ recs.
Proof.
  intros Hk Hnd Hiff. apply NoDup_Permutation.
  - apply (NoDup_fmap_1 fst). change (map ?f ?l) with (f <$> l).
    rewrite <- list_fmap_compose. by rewrite list_fmap_id.
  - by eapply NoDup_fmap_1.
  - intros [s v]. change (map ?f ?l) with (f <$> l).
    rewrite list_elem_of_fmap. split.
    + intros (s' & [= <- ->] & Hs%Hiff).
      apply list_elem_of_fmap in Hs as ([s' v] & Hs & Hin).
      cbn in Hs. subst s'. by rewrite (remainders_unique recs s v).
    + intros Hin. exists s. split.
      * by rewrite (remainders_unique recs s v).
      * apply Hiff, list_elem_of_fmap. by exists (s, v).
Qed.

(** * The claims *)

(** ** The output *)

(** C1.  When the run succeeds, the output file holds the header line and
    then, for the species of the validated rows in strictly increasing
    order, the lines of the rows of that species in the order of the input,
    each the run identifier, made of the species and the position counted
    from 1, and the 5 fields of the row, joined by commas. *)
Theorem output_layout content w w' :
  check_samplesheet content w = (Return (), w') →
  ∃ recs keys,
    Forall2 validated (data_lines (tl (open_r content))) recs ∧
    Forall (λ r, length r.2 = 5%nat) recs ∧
    StronglySorted str_lt keys ∧ (∀ s, s ∈ keys ↔ s ∈ recs.*1) ∧
    file_out w' =
    Some (lit "species,file,tax1,tax2,mode,uniprot" ++ [LF] ++
          concat (map (λ species,
                    concat (imap (λ idx val,
                              join (lit ",")
                                ((species ++ lit "_T" ++ str_of_nat (idx + 1))
                                   :: val) ++ [LF])
                            (remainders species recs)))
                  keys)).
Proof.
  intros (recs & keys & _ & Hv & _ & _ & Hs & Hk & Hf)%check_samplesheet_Return.
  exists recs, keys. rewrite Hf. split; [done|]. split; [|done].
  apply validated_rows_well_formed in Hv.
  apply (Forall_impl _ _ _ Hv).
  intros r (_ & _ & _ & ? & ? & ? & ? & ? & -> & _). done.
Qed.

Lemma output_layout_witness :
  let content :=
    lit "species,file,tax1,tax2,mode,uniprot" ++ [LF]
      ++ lit "cat,c1.fa,a,b,c,d" ++ [LF]
      ++ lit "ant,a.fasta,a,b,c,d" ++ [LF]
      ++ lit "cat,c2.fa,a,b,c,d" ++ [LF] in
  ∃ recs keys,
    Forall2 validated (data_lines (tl (open_r content))) recs ∧
    Forall (λ r, length r.2 = 5%nat) recs ∧
    StronglySorted str_lt keys ∧ (∀ s, s ∈ keys ↔ s ∈ recs.*1) ∧
    Some (lit "species,file,tax1,tax2,mode,uniprot" ++ [LF]
            ++ lit "ant_T1,a.fasta,a,b,c,d" ++ [LF]
            ++ lit "cat_T1,c1.fa,a,b,c,d" ++ [LF]
            ++ lit "cat_T2,c2.fa,a,b,c,d" ++ [LF]) =
    Some (lit "species,file,tax1,tax2,mode,uniprot" ++ [LF] ++
          concat (map (λ species,
                    concat (imap (λ idx val,
                              join (lit ",")
                                ((species ++ lit "_T" ++ str_of_nat (idx + 1))
                                   :: val) ++ [LF])
                            (remainders species recs)))
                  keys)).
Proof.
  intros content.
  refine (output_layout content (World [] None)
            (World [] (Some (lit "species,file,tax1,tax2,mode,uniprot" ++ [LF]
            ++ lit "ant_T1,a.fasta,a,b,c,d" ++ [LF]
            ++ lit "cat_T1,c1.fa,a,b,c,d" ++ [LF]
            ++ lit "cat_T2,c2.fa,a,b,c,d" ++ [LF]))) _).
  vm_compute. reflexivity.
Defined.

(** ** The output as an input *)

(** C2, against the claim as stated.  First, a row with an empty file and a
    seventh field is accepted, its row of the output has an empty field
    among 6, and the second run rejects it.  Second, two species that
    differ by a leading tabulator, kept by the double quotes around the
    field, give run identifiers that the second run trims to one species,
    which then has two rows. *)
Lemma rerun_on_output_counterexample :
  let header := lit "species,file,tax1,tax2,mode,uniprot" ++ [LF] in
  let content1 := header ++ lit "a,,c,d,e,f,g" ++ [LF] in
  let out1 := header ++ lit "a_T1,,c,d,e,f" ++ [LF] in
  let content2 :=
    header ++ lit "a,a.fa,c,d,e,f" ++ [LF]
      ++ [QUOTE; 9] ++ lit "a" ++ [QUOTE] ++ lit ",b.fa,c,d,e,f" ++ [LF] in
  let out2 :=
    header ++ [9] ++ lit "a_T1,b.fa,c,d,e,f" ++ [LF]
      ++ lit "a_T1,a.fa,c,d,e,f" ++ [LF] in
  check_samplesheet content1 (World [] None) =
    (Return (), World [] (Some out1)) ∧
  check_samplesheet out1 (World [] (Some out1)) =
    (SystemExit 1,
     World [error_str (lit "Invalid number of populated columns (minimum = 6)!")
              (lit "Line") (lit "a_T1,,c,d,e,f" ++ [LF])]
       (Some out1)) ∧
  check_samplesheet content2 (World [] None) =
    (Return (), World [] (Some out2)) ∧
  check_samplesheet out2 (World [] (Some out2)) =
    (Return (),
     World [] (Some (header ++ lit "a_T1_T1,b.fa,c,d,e,f" ++ [LF]
                       ++ lit "a_T1_T2,a.fa,c,d,e,f" ++ [LF]))).
Proof. vm_compute. done. Qed.

(** C2, amended.  Let a run succeed on an input all of whose records are
    such that the species does not begin with white space or a double quote
    and no field of the remainder is empty once trimmed again.  Then a run
    on the output succeeds too.  Its records, one for each data line of the
    first output, have pairwise different species, which are the run
    identifiers of the first run, and 5 fields each, without comma or line
    end.  So the second output has as many rows as the first, one for each
    of its species, and read back line by line its species column holds
    each of these species followed by [_T1]. *)
Theorem rerun_on_output content w w1 out :
  check_samplesheet content w = (Return (), w1) →
  file_out w1 = Some out →
  (∀ line r,
     line ∈ data_lines (tl (open_r content)) → validated line r →
     rereadable r) →
  ∀ w1', ∃ w2 rows out2,
    check_samplesheet out w1' = (Return (), w2) ∧
    (∃ recs2,
       Forall2 validated (data_lines (tl (open_r out))) recs2 ∧
       rows ≡ₚ recs2) ∧
    StronglySorted str_lt rows.*1 ∧
    rows.*1 ≡ₚ map (λ line, hd [] (split COMMA line)) (tl (open_r out)) ∧
    Forall (λ r, plain r.1 ∧ length r.2 = 5%nat ∧ Forall plain r.2) rows ∧
    file_out w2 = Some out2 ∧
    out2 =
    lit "species,file,tax1,tax2,mode,uniprot" ++ [LF] ++
      concat (map (λ r, join (lit ",") ((r.1 ++ lit "_T1") :: r.2) ++ [LF])
                rows) ∧
    tl (open_r out2) =
    map (λ r, join (lit ",") ((r.1 ++ lit "_T1") :: r.2) ++ [LF]) rows ∧
    map (λ line, hd [] (split COMMA line)) (tl (open_r out2)) =
    map (λ r, r.1 ++ lit "_T1") rows ∧
    length (tl (open_r out2)) = length (tl (open_r out)).
Proof.
  intros (recs & keys & _ & Hv & Hnd & Hne & Hs & Hk & Hf)%check_samplesheet_Return.
  rewrite Hf. intros [= <-] Hre w1'.
  assert (Forall rereadable recs) as Hre'.
  { eapply Forall2_Forall_r; [done|]. apply Forall_forall. eauto. }
  apply validated_rows_well_formed in Hv as Hwf.
  set (rows1 := out_rows keys recs).
  set (recs2 := map (λ r, (r.1, map trim r.2)) rows1).
  assert (recs2.*1 = rows1.*1) as Hfst.
  { unfold recs2. change (map ?f ?l) with (f <$> l).
    rewrite <- list_fmap_compose. done. }
  assert (NoDup recs2.*1) as Hnd1.
  { rewrite Hfst. by apply out_rows_NoDup, StronglySorted_str_lt_NoDup. }
  pose proof (out_text_species_column keys recs Hwf) as Hcol.
  fold rows1 in Hcol.
  assert (Forall2 validated
            (data_lines (tl (open_r (out_text keys recs)))) recs2) as Hv2.
  { rewrite open_r_out_text by done. cbn [tl].
    by apply out_rows_revalidated. }
  apply validated_rows_well_formed in Hv2 as Hwf2.
  destruct (check_samplesheet_success (out_text keys recs) recs2 w1')
    as (keys2 & w2 & Hs2 & Hk2 & Hrun & Hf2).
  { unfold header_ok. rewrite open_r_out_text by done. cbn [hd].
    vm_compute. reflexivity. }
  { done. }
  { by eapply NoDup_fmap_1. }
  { unfold recs2. intros E%map_eq_nil. by eapply out_rows_nonempty. }
  pose proof (StronglySorted_str_lt_NoDup _ Hs2) as Hnd2.
  set (rows := map (λ s, (s, hd [] (remainders s recs2))) keys2).
  assert (rows.*1 = keys2) as Hk1.
  { unfold rows. change (map ?f ?l) with (f <$> l).
    rewrite <- list_fmap_compose. apply list_fmap_id. }
  assert (rows ≡ₚ recs2) as Hperm
    by (by apply single_rows_Permutation).
  assert (out_rows keys2 recs2 = map (λ r, (r.1 ++ lit "_T1", r.2)) rows)
    as Hrows2.
  { rewrite out_rows_single by (done || apply Hk2).
    unfold rows. by rewrite map_map. }
  assert (tl (open_r (out_text keys2 recs2)) =
          map (λ r, join (lit ",") ((r.1 ++ lit "_T1") :: r.2) ++ [LF]) rows)
    as Hlines.
  { rewrite open_r_out_text by done. cbn [tl].
    by rewrite Hrows2, map_map. }
  exists w2, rows, (out_text keys2 recs2).
  split; [done|]. split; [by exists recs2|]. rewrite Hk1, Hcol, <- Hfst.
  split; [done|]. split.
  { apply NoDup_Permutation; [done|done|done]. }
  split.
  { rewrite Hperm. apply (Forall_impl _ _ _ Hwf2).
    intros r (_ & _ & Hp & ? & ? & ? & ? & ? & Hr & Hps & _).
    split; [done|]. split; [by rewrite Hr|done]. }
  split; [done|]. split.
  { rewrite out_text_rows, Hrows2, map_map, header_line_eq.
    by rewrite <- app_assoc. }
  split; [done|]. split.
  { rewrite out_text_species_column, Hrows2 by done.
    change (map ?f ?l) with (f <$> l) at 1.
    by rewrite <- list_fmap_compose. }
  rewrite Hlines, length_map.
  rewrite <- (length_map (λ line, hd [] (split COMMA line))
                (tl (open_r (out_text keys recs)))).
  rewrite Hcol, <- Hfst, length_fmap. by apply Permutation_length.
Qed.

Lemma rerun_on_output_witness :
  let header := lit "species,file,tax1,tax2,mode,uniprot" ++ [LF] in
  let content :=
    header ++ lit "cat,c1.fa,a,b,c,d" ++ [LF]
      ++ lit "ant,a.fasta,a,b,c,d" ++ [LF]
      ++ lit "cat,c2.fa,a,b,c,d" ++ [LF] in
  let out :=
    header ++ lit "ant_T1,a.fasta,a,b,c,d" ++ [LF]
      ++ lit "cat_T1,c1.fa,a,b,c,d" ++ [LF]
      ++ lit "cat_T2,c2.fa,a,b,c,d" ++ [LF] in
  ∃ w2 rows out2,
    check_samplesheet out (World [] (Some out)) = (Return (), w2) ∧
    (∃ recs2,
       Forall2 validated (data_lines (tl (open_r out))) recs2 ∧
       rows ≡ₚ recs2) ∧
    StronglySorted str_lt rows.*1 ∧
    rows.*1 ≡ₚ map (λ line, hd [] (split COMMA line)) (tl (open_r out)) ∧
    Forall (λ r, plain r.1 ∧ length r.2 = 5%nat ∧ Forall plain r.2) rows ∧
    file_out w2 = Some out2 ∧
    out2 =
    lit "species,file,tax1,tax2,mode,uniprot" ++ [LF] ++
      concat (map (λ r, join (lit ",") ((r.1 ++ lit "_T1") :: r.2) ++ [LF])
                rows) ∧
    tl (open_r out2) =
    map (λ r, join (lit ",") ((r.1 ++ lit "_T1") :: r.2) ++ [LF]) rows ∧
    map (λ line, hd [] (split COMMA line)) (tl (open_r out2)) =
    map (λ r, r.1 ++ lit "_T1") rows ∧
    length (tl (open_r out2)) = length (tl (open_r out)).
Proof.
  intros header content out.
  refine (rerun_on_output content (World [] None) (World [] (Some out)) out
            _ _ _ (World [] (Some out))).
  - vm_compute. reflexivity.
  - reflexivity.
  - intros line r Hline Hr.
    assert (line ∈ [lit "cat,c1.fa,a,b,c,d" ++ [LF];
                    lit "ant,a.fasta,a,b,c,d" ++ [LF];
                    lit "cat,c2.fa,a,b,c,d" ++ [LF]]) as Hin.
    { revert Hline. vm_compute. done. }
    clear Hline.
    assert (∀ l s v, validated l r →
              check_row l (World [] None) = (Return (s, v), World [] None) →
              r = (s, v)) as Hdet.
    { intros l s v Hv Hrow. destruct (Hv (World [] None)) as (w' & Hrow' & _).
      congruence. }
    rewrite !elem_of_cons in Hin.
    destruct Hin as [->|[->|[->|Hin]]]; [| | |by apply elem_of_nil in Hin].
    + rewrite (Hdet _ (lit "cat") [lit "c1.fa"; lit "a"; lit "b"; lit "c"; lit "d"] Hr)
        by (vm_compute; reflexivity).
      split; [intros c [= <-]; vm_compute; done|].
      repeat constructor; vm_compute; discriminate.
    + rewrite (Hdet _ (lit "ant") [lit "a.fasta"; lit "a"; lit "b"; lit "c"; lit "d"] Hr)
        by (vm_compute; reflexivity).
      split; [intros c [= <-]; vm_compute; done|].
      repeat constructor; vm_compute; discriminate.
    + rewrite (Hdet _ (lit "cat") [lit "c2.fa"; lit "a"; lit "b"; lit "c"; lit "d"] Hr)
        by (vm_compute; reflexivity).
      split; [intros c [= <-]; vm_compute; done|].
      repeat constructor; vm_compute; discriminate.
Defined.

(** ** Populated columns *)

(** C3, against the claim as stated: the row [a,b.fa,,d,e,f] is not blank
    and has 6 fields, yet only 5 of them are non-empty, and the row is
    rejected by the check of the populated columns. *)
Lemma populated_check_not_subsumed :
  let line := lit "a,b.fa,,d,e,f" in
  strip line ≠ [] ∧
  (length HEADER ≤ length (lspl line))%nat ∧
  ¬ (MIN_COLS ≤ num_cols line)%nat ∧
  check_row line (World [] None) =
  (SystemExit 1,
   fatal (lit "Invalid number of populated columns (minimum = 6)!") line
     (World [] None)).
Proof.
  cbv zeta. split; [|split; [|split]].
  - vm_compute. discriminate.
  - vm_compute. lia.
  - intros H. vm_compute in H. lia.
  - vm_compute. reflexivity.
Qed.

(** C3, amended: the check of the populated columns is not redundant.  A
    row with at least 6 fields of which fewer than 6 are non-empty is
    rejected by it; it is the check of the number of columns that is
    subsumed, since a row with at least 6 non-empty fields has at least 6
    fields. *)
Theorem populated_columns_check line w :
  ((MIN_COLS ≤ num_cols line)%nat →
   (length HEADER ≤ length (lspl line))%nat) ∧
  ((length HEADER ≤ length (lspl line))%nat →
   (num_cols line < MIN_COLS)%nat →
   check_row line w =
   (SystemExit 1,
    fatal (lit "Invalid number of populated columns (minimum = 6)!") line w)).
Proof.
  split; [apply num_cols_length|apply too_few_populated].
Qed.

Lemma populated_columns_check_witness :
  check_row (lit "a,b.fa,,d,e,f") (World [] None) =
  (SystemExit 1,
   fatal (lit "Invalid number of populated columns (minimum = 6)!")
     (lit "a,b.fa,,d,e,f") (World [] None)).
Proof.
  apply (proj2 (populated_columns_check (lit "a,b.fa,,d,e,f") (World [] None)));
    vm_compute; lia.
Defined.

(** ** Fields after the sixth *)

(** C4, against the claim as stated: two rows with the same first 6 trimmed
    fields, of which 5 are non-empty.  The one with 6 fields is rejected,
    the one with a seventh, non-empty field is accepted. *)
Lemma trailing_field_changes_acceptance :
  let l1 := lit "cat,,a,b,c,d" in
  let l2 := lit "cat,,a,b,c,d,e" in
  take 6 (lspl l1) = take 6 (lspl l2) ∧
  length (filter (λ x, x ≠ []) (take 6 (lspl l2))) = 5%nat ∧
  (check_row l1 (World [] None)).1 = SystemExit 1 ∧
  (check_row l2 (World [] None)).1 =
  Return (lit "cat", [[]; lit "a"; lit "b"; lit "c"; lit "d"]).
Proof. vm_compute. done. Qed.

(** C4, amended: the non-empty fields are counted among all the fields of
    the row, so a row with at least 6 fields is rejected for too few
    populated columns exactly when fewer than 6 of all its fields are
    non-empty.  Fields after the sixth matter in this count only: two rows
    that agree on their first 6 trimmed fields and both have at least 6
    non-empty fields are accepted or rejected alike, with the same record. *)
Theorem trailing_fields l1 l2 w :
  take (length HEADER) (lspl l1) = take (length HEADER) (lspl l2) →
  (length HEADER ≤ length (lspl l1))%nat →
  ((num_cols l1 < MIN_COLS)%nat ↔
   check_row l1 w =
   (SystemExit 1,
    fatal (lit "Invalid number of populated columns (minimum = 6)!") l1 w)) ∧
  ((MIN_COLS ≤ num_cols l1)%nat → (MIN_COLS ≤ num_cols l2)%nat →
   (check_row l1 w).1 = (check_row l2 w).1).
Proof.
  intros Htake Hlen. split; [split|].
  - intros Hnum. by apply too_few_populated.
  - rewrite check_row_run.
    rewrite bool_decide_eq_false_2 by lia.
    case_bool_decide as Hnum; [done|].
    destruct (lspl l1) as [|species [|file [|tax1 [|tax2 [|mode [|uniprot rest]]]]]];
      try (cbn in Hlen; lia).
    break_ifs; intros H; try discriminate H;
      apply (f_equal snd), fatal_inj in H as [H _]; revert H; lit_neq.
  - intros Hn1 Hn2.
    pose proof (num_cols_length l2 Hn2) as Hlen2.
    rewrite !check_row_run.
    rewrite !bool_decide_eq_false_2 by lia.
    destruct (lspl l1) as [|s1 [|f1 [|a1 [|b1 [|m1 [|u1 r1]]]]]];
      try (cbn in Hlen; lia).
    destruct (lspl l2) as [|s2 [|f2 [|a2 [|b2 [|m2 [|u2 r2]]]]]];
      try (cbn in Hlen2; lia).
    cbn in Htake. injection Htake as -> -> -> -> -> ->.
    by break_ifs.
Qed.

Lemma trailing_fields_witness :
  (check_row (lit "cat,c.fa,a,b,c,d") (World [] None)).1 =
  (check_row (lit "cat,c.fa,a,b,c,d,e,,f") (World [] None)).1.
Proof.
  apply (trailing_fields (lit "cat,c.fa,a,b,c,d") (lit "cat,c.fa,a,b,c,d,e,,f"));
    vm_compute; (reflexivity || lia).
Defined.

(** ** White space in the species *)





(** ** The header *)

(** C6, against the claim as stated: with a space after the first comma the
    tokens of the header, trimmed as the fields of a data row are, equal the
    expected names; the header is rejected all the same and nothing is
    written. *)
Lemma header_with_spaces_rejected :
  let first_line := lit "species, file,tax1,tax2,mode,uniprot" ++ [LF] in
  let content := first_line ++ lit "cat,c.fa,a,b,c,d" ++ [LF] in
  take 6 (map trim (split COMMA first_line)) = HEADER ∧
  check_samplesheet content (World [] None) =
  (SystemExit 1,
   World [lit "ERROR: Please check samplesheet header -> species, file,tax1,tax2,mode,uniprot != species,file,tax1,tax2,mode,uniprot"]
     None).
Proof. vm_compute. done. Qed.

(** C6, amended: white space is trimmed at the two ends of the first line
    only; the line is then split at the commas and the double quotes around
    each field are trimmed, not the white space.  The header is accepted
    exactly when the first 6 of these tokens are the expected names, so
    further columns are ignored and a header with spaces after the commas is
    rejected; a rejected header ends the run with status 1, the message
    showing both headers, and no output. *)
Theorem header_acceptance content w :
  let header :=
    map strip_quotes (split COMMA (strip (hd [] (open_r content)))) in
  (take 6 header = HEADER →
   check_header (hd [] (open_r content)) w = (Return (), w)) ∧
  (take 6 header ≠ HEADER →
   check_samplesheet content w =
   (SystemExit 1,
    World (stdout w ++
             [lit "ERROR: Please check samplesheet header -> "
                ++ join (lit ",") header
                ++ lit " != species,file,tax1,tax2,mode,uniprot"])
      (file_out w))).
Proof.
  cbv zeta. split; intros H.
  - rewrite check_header_run. cbv zeta.
    by rewrite bool_decide_eq_false_2 by (by intros ?).
  - rewrite check_samplesheet_run, check_header_run. cbv zeta.
    by rewrite bool_decide_eq_true_2 by done.
Qed.

Lemma header_acceptance_witness :
  check_header (lit "species,file,tax1,tax2,mode,uniprot,more" ++ [LF])
    (World [] None) = (Return (), World [] None).
Proof.
  refine (proj1 (header_acceptance
    (lit "species,file,tax1,tax2,mode,uniprot,more" ++ [LF]) (World [] None)) _).
  vm_compute. reflexivity.
Defined.

(** ** The fasta file *)

(** C7, against the claim as stated: a file name with a tabulator inside
    is not empty and contains white space, and its row is accepted. *)
Lemma file_with_tab_accepted :
  let file := lit "a" ++ [9] ++ lit "b.fa" in
  let line := lit "x," ++ file ++ lit ",c,d,e,f" in
  isspace 9 = true ∧
  check_row line (World [] None) =
  (Return (lit "x", [file; lit "c"; lit "d"; lit "e"; lit "f"]),
   World [] None).
Proof. vm_compute. done. Qed.

(** C7, amended: only the space character counts as white space in the
    file name.  For a row that gets as far as the checks of the file (at
    least 6 fields, at least 6 non-empty fields, a species): with a
    non-empty file name the row is rejected when the name contains a space,
    and rejected unless the name ends with [.fasta] or [.fa]; in every other
    case, that of an empty file name among them, it is accepted. *)
Theorem fasta_checks line w species file rest :
  lspl line = species :: file :: rest →
  (length HEADER ≤ length (lspl line))%nat →
  (MIN_COLS ≤ num_cols line)%nat →
  canonical species ≠ [] →
  (file ≠ [] → SPACE ∈ file →
   check_row line w =
   (SystemExit 1,
    fatal (lit "fasta file contains spaces!") line (warned species w))) ∧
  (file ≠ [] → SPACE ∉ file →
   (¬ ∃ prefix, file = prefix ++ lit ".fasta") →
   (¬ ∃ prefix, file = prefix ++ lit ".fa") →
   check_row line w =
   (SystemExit 1,
    fatal (lit "Fasta file does not have extension '.fasta' or '.fa'!") line
      (warned species w))) ∧
  (file = [] ∨
   ((SPACE ∉ file) ∧
    ((∃ prefix, file = prefix ++ lit ".fasta") ∨
     (∃ prefix, file = prefix ++ lit ".fa"))) →
   ∃ r, check_row line w = (Return r, warned species w)).
Proof.
  intros Hl Hlen Hnum Hsp. rewrite check_row_run, Hl.
  rewrite Hl in Hlen.
  rewrite !bool_decide_eq_false_2 by (done || lia).
  destruct rest as [|tax1 [|tax2 [|mode [|uniprot rest]]]];
    try (cbn in Hlen; lia).
  rewrite <- !endswith_spec, <- contains_spec. unfold fasta_ok.
  split; [|split].
  - intros Hf ->. by rewrite bool_decide_eq_true_2.
  - intros Hf ->%not_true_is_false H1%not_true_is_false H2%not_true_is_false.
    rewrite andb_false_r, H1, H2.
    by rewrite (bool_decide_eq_false_2 (file = [])).
  - intros [->|[->%not_true_is_false He]].
    + rewrite bool_decide_eq_false_2 by (by intros []).
      rewrite bool_decide_eq_true_2 by done. cbn. eauto.
    + rewrite andb_false_r. cbn [negb andb].
      replace (endswith (lit ".fasta") file || endswith (lit ".fa") file)
        with true by (by destruct He as [-> | ->]; rewrite ?orb_true_r).
      rewrite orb_true_r. cbn. eauto.
Qed.

Lemma fasta_checks_witness :
  check_row (lit "cat,sample.txt,a,b,c,d") (World [] None) =
  (SystemExit 1,
   fatal (lit "Fasta file does not have extension '.fasta' or '.fa'!")
     (lit "cat,sample.txt,a,b,c,d") (World [] None)).
Proof.
  refine (proj1 (proj2 (fasta_checks (lit "cat,sample.txt,a,b,c,d")
    (World [] None) (lit "cat") (lit "sample.txt")
    [lit "a"; lit "b"; lit "c"; lit "d"] _ _ _ _)) _ _ _ _).
  - vm_compute. reflexivity.
  - vm_compute. lia.
  - vm_compute. lia.
  - vm_compute. discriminate.
  - vm_compute. discriminate.
  - rewrite <- contains_spec. vm_compute. discriminate.
  - rewrite <- endswith_spec. vm_compute. discriminate.
  - rewrite <- endswith_spec. vm_compute. discriminate.
Defined.

(** ** Duplicate rows *)

(** C8.  Let [d] be the dictionary after the lines [lines], and [line] a
    further row with the species [species] and the remainder [info].  No
    sequence stored in [d] holds a remainder twice.  If [info] is in the
    sequence of [species] already, the run ends with status 1 and the
    message of the duplicate rows naming [line]; otherwise the dictionary
    after [line] is [d] with [info] appended to the sequence of [species]
    (started, when [species] is new). *)
Theorem deduplication (lines rest : list str) (line species : str)
    (info : list str) (d : gmap str (list (list str))) w w1 :
  read_entries lines ∅ w = (Return d, w1) →
  validated line (species, info) →
  (∀ s l, d !! s = Some l → l ≠ [] ∧ NoDup l) ∧
  (info ∈ d !!! species →
   ∃ w2, check_row line w1 = (Return (species, info), w2) ∧
         read_entries (lines ++ line :: rest) ∅ w =
         (SystemExit 1,
          fatal (lit "Samplesheet contains duplicate rows!") line w2)) ∧
  (info ∉ d !!! species →
   ∃ w2, read_entries (lines ++ [line]) ∅ w =
         (Return (<[species := d !!! species ++ [info]]> d), w2)).
Proof.
  intros Hread Hv.
  pose proof (validated_nonblank _ _ Hv) as Hblank.
  pose proof Hread as Hread'.
  apply (read_entries_Return _ []) in Hread' as (recs & _ & Hg & Hnd & _);
    [|apply grouped_empty|constructor].
  cbn [app] in *. rewrite (grouped_lookup_total recs) by done.
  destruct (Hv w1) as (w2 & Hrow & _).
  split; [|split].
  - intros s l. rewrite (Hg s). case_decide; [done|].
    intros [= <-]. split; [done|]. by apply NoDup_remainders.
  - intros Hin%remainders_elem. exists w2. split; [done|].
    rewrite read_entries_app, Hread, read_entries_cons.
    rewrite bool_decide_eq_true_2 by done. rewrite Hrow.
    rewrite (populate_grouped _ _ _ recs) by done.
    by rewrite bool_decide_eq_true_2.
  - intros Hin. rewrite remainders_elem in Hin. exists w2.
    rewrite read_entries_app, Hread, read_entries_cons.
    rewrite bool_decide_eq_true_2 by done. rewrite Hrow.
    rewrite (populate_grouped _ _ _ recs) by done.
    by rewrite bool_decide_eq_false_2.
Qed.

Lemma deduplication_witness :
  let line := lit "human,human.fasta,l1,l2,denovo,true" ++ [LF] in
  ∃ w2,
    read_entries ([line] ++ [line]) ∅ (World [] None) =
    (SystemExit 1, fatal (lit "Samplesheet contains duplicate rows!") line w2).
Proof.
  intros line.
  pose (info := [lit "human.fasta"; lit "l1"; lit "l2"; lit "denovo"; lit "true"]).
  destruct (deduplication [line] [] line (lit "human") info
              (<[lit "human" := [info]]> ∅) (World [] None) (World [] None))
    as (_ & H & _).
  - vm_compute. reflexivity.
  - apply (check_row_validated line (World [] None) _ (World [] None)).
    vm_compute. reflexivity.
  - destruct H as (w2 & _ & H).
    + rewrite lookup_total_insert_eq. apply list_elem_of_singleton. reflexivity.
    + exists w2. exact H.
Defined.

(** ** No output on failure *)

(** C9.  A run ends in one of two ways: it returns, having written the
    output file, or it exits with status 1, be it for the header, for a row,
    for a duplicate or for the lack of entries, and then the output file is
    as it was before the run: not created, not written.  No exception
    escapes. *)
Theorem no_output_on_failure content w :
  match check_samplesheet content w with
  | (Return _, w') => is_Some (file_out w')
  | (SystemExit code, w') => code = 1%Z ∧ file_out w' = file_out w
  | (Raised _, _) => False
  end.
Proof.
  rewrite check_samplesheet_run, check_header_run. cbv zeta.
  case_bool_decide; [done|].
  destruct (read_entries_outcome (tl (open_r content)) ∅ w)
    as (w2 & Hf & [[d ->]| ->]); [|done].
  case_bool_decide; [|done].
  rewrite write_samplesheet_run. by eexists.
Qed.

(** ** Distinct run identifiers *)

(** C10.  Run identifiers determine the species and the position they are
    made of, so those of two species differ, as do those of two positions of
    one species; and the species column of every output file, read back
    line by line, holds no value twice. *)
Theorem run_ids_distinct content w w' out :
  check_samplesheet content w = (Return (), w') →
  file_out w' = Some out →
  (∀ s1 n1 s2 n2,
     s1 ++ lit "_T" ++ str_of_nat n1 = s2 ++ lit "_T" ++ str_of_nat n2 →
     s1 = s2 ∧ n1 = n2) ∧
  NoDup (map (λ line, hd [] (split COMMA line)) (tl (open_r out))).
Proof.
  intros (recs & keys & _ & Hv & _ & _ & Hs & _ & Hf)%check_samplesheet_Return.
  rewrite Hf. intros [= <-]. split; [apply suffixed_inj|].
  apply validated_rows_well_formed in Hv.
  rewrite open_r_out_text by done. cbn [tl]. rewrite map_map.
  rewrite (map_ext_in _ fst).
  - by apply out_rows_NoDup, StronglySorted_str_lt_NoDup.
  - intros r Hr%list_elem_of_In. by eapply row_ok_species_column, out_rows_ok.
Qed.

Lemma run_ids_distinct_witness :
  NoDup (map (λ line, hd [] (split COMMA line))
           (tl (open_r (lit "species,file,tax1,tax2,mode,uniprot" ++ [LF]
                          ++ lit "a_T1,a.fa,t,u,m,p" ++ [LF]
                          ++ lit "a_T2,b.fa,t,u,m,p" ++ [LF]
                          ++ lit "a_T1_T1,a.fa,t,u,m,p" ++ [LF])))).
Proof.
  refine (proj2 (run_ids_distinct
    (lit "species,file,tax1,tax2,mode,uniprot" ++ [LF]
       ++ lit "a,a.fa,t,u,m,p" ++ [LF]
       ++ lit "a_T1,a.fa,t,u,m,p" ++ [LF]
       ++ lit "a,b.fa,t,u,m,p" ++ [LF])
    (World [] None)
    (World [] (Some (lit "species,file,tax1,tax2,mode,uniprot" ++ [LF]
                          ++ lit "a_T1,a.fa,t,u,m,p" ++ [LF]
                          ++ lit "a_T2,b.fa,t,u,m,p" ++ [LF]
                          ++ lit "a_T1_T1,a.fa,t,u,m,p" ++ [LF])))
    _ _ _)).
  - vm_compute. reflexivity.
  - reflexivity.
Defined.

(** * Further properties of the script *)

(** ** What of the input matters *)

Lemma check_samplesheet_open_r c1 c2 w :
  open_r c1 = open_r c2 → check_samplesheet c1 w = check_samplesheet c2 w.
Proof. intros H. unfold check_samplesheet. by rewrite H. Qed.

Lemma error_str_strip e context l1 l2 :
  strip l1 = strip l2 → strip l1 ≠ [] →
  error_str e context l1 = error_str e context l2.
Proof.
  intros H Hne. unfold error_str. rewrite <- H.
  assert (l1 ≠ []) by (by intros ->).
  assert (l2 ≠ []) by (intros ->; by rewrite H in Hne).
  rewrite (bool_decide_eq_true_2 (l1 ≠ [])) by done.
  by rewrite (bool_decide_eq_true_2 (l2 ≠ [])) by done.
Qed.

Lemma check_row_strip l1 l2 w :
  strip l1 = strip l2 → strip l1 ≠ [] → check_row l1 w = check_row l2 w.
Proof.
  intros H Hne. rewrite !check_row_run. unfold fatal, num_cols, lspl.
  rewrite <- H. by rewrite !(error_str_strip _ _ l1 l2).
Qed.

Lemma populate_strip (l1 l2 species : str) (info : list str)
    (d : gmap str (list (list str))) w :
  strip l1 = strip l2 → strip l1 ≠ [] →
  populate l1 species info d w = populate l2 species info d w.
Proof.
  intros H Hne. rewrite !populate_run. unfold fatal.
  by rewrite !(error_str_strip _ _ l1 l2).
Qed.

Lemma read_entries_data_lines (lines : list str)
    (d : gmap str (list (list str))) w :
  read_entries lines d w = read_entries (data_lines lines) d w.
Proof.
  revert d w. induction lines as [|line lines IH]; intros d w; [done|].
  rewrite data_lines_cons, read_entries_cons.
  case_bool_decide as Hb; [|apply IH].
  rewrite read_entries_cons, bool_decide_eq_true_2 by done.
  destruct (check_row line w) as [[[species info]|c|e] w1]; try done.
  destruct (populate line species info d w1) as [[d1|c|e] w2]; try done.
Qed.

Lemma read_entries_strip (ls1 ls2 : list str)
    (d : gmap str (list (list str))) w :
  map strip (data_lines ls1) = map strip (data_lines ls2) →
  read_entries ls1 d w = read_entries ls2 d w.
Proof.
  rewrite (read_entries_data_lines ls1), (read_entries_data_lines ls2).
  assert (Forall (λ l, strip l ≠ []) (data_lines ls1)) as Hne.
  { apply Forall_forall. by intros l [? _]%list_elem_of_filter. }
  revert Hne. generalize (data_lines ls1) (data_lines ls2).
  clear ls1 ls2. intros ls1. revert d w.
  induction ls1 as [|l1 ls1 IH]; intros d w [|l2 ls2] Hne; try done.
  intros [= H Hrest]. apply Forall_cons in Hne as [Hne1 Hne].
  rewrite !read_entries_cons. rewrite <- H.
  rewrite bool_decide_eq_true_2 by done.
  rewrite <- (check_row_strip l1 l2) by done.
  destruct (check_row l1 w) as [[[species info]|c|e] w1]; try done.
  rewrite <- (populate_strip l1 l2) by done.
  destruct (populate l1 species info d w1) as [[d1|c|e] w2]; try done.
  by apply IH.
Qed.

Lemma check_header_strip l1 l2 w :
  strip l1 = strip l2 → check_header l1 w = check_header l2 w.
Proof. intros H. unfold check_header. by rewrite H. Qed.

Lemma check_samplesheet_lines c1 c2 w :
  strip (hd [] (open_r c1)) = strip (hd [] (open_r c2)) →
  map strip (data_lines (tl (open_r c1)))
  = map strip (data_lines (tl (open_r c2))) →
  check_samplesheet c1 w = check_samplesheet c2 w.
Proof.
  intros Hh Hl. rewrite !check_samplesheet_run.
  rewrite (check_header_strip _ _ w Hh).
  destruct (check_header (hd [] (open_r c2)) w) as [[[]|c|e] w1]; try done.
  by rewrite (read_entries_strip _ _ ∅ w1 Hl).
Qed.

(** X1.  A run depends on its input only through the first line, stripped
    of outer white space, and the later lines that are not blank, each
    stripped of outer white space: blank lines and white space around a line
    change neither the outcome, nor what is printed, nor the output. *)
Theorem input_through_stripped_lines c1 c2 w :
  strip (hd [] (open_r c1)) = strip (hd [] (open_r c2)) →
  map strip (data_lines (tl (open_r c1)))
  = map strip (data_lines (tl (open_r c2))) →
  check_samplesheet c1 w = check_samplesheet c2 w.
Proof.
  intros Hh Hl. rewrite !check_samplesheet_run.
  rewrite (check_header_strip _ _ w Hh).
  destruct (check_header (hd [] (open_r c2)) w) as [[[]|c|e] w1]; try done.
  by rewrite (read_entries_strip _ _ ∅ w1 Hl).
Qed.

Lemma input_through_stripped_lines_witness :
  check_samplesheet
    (lit "species,file,tax1,tax2,mode,uniprot  " ++ [LF; LF]
       ++ lit "  cat,c.fa,a,b,c,d" ++ [9; LF; SPACE; LF])
    (World [] None)
  = check_samplesheet
      (lit "species,file,tax1,tax2,mode,uniprot" ++ [LF]
         ++ lit "cat,c.fa,a,b,c,d")
      (World [] None).
Proof.
  apply input_through_stripped_lines; vm_compute; reflexivity.
Defined.

(** ** Byte-order mark and line ends *)

Lemma universal_newlines_to_crlf s :
  CR ∉ s → universal_newlines false (to_crlf s) = s.
Proof.
  unfold to_crlf. induction s as [|c s IH]; [done|].
  intros [Hc Hs]%not_elem_of_cons. cbn [map concat].
  destruct (N.eqb_spec c LF) as [->|Hlf].
  - cbn. by rewrite IH.
  - cbn. apply not_eq_sym, N.eqb_neq in Hc. rewrite Hc, andb_false_r.
    by rewrite IH.
Qed.

Lemma utf_8_sig_id s : head s ≠ Some BOM → utf_8_sig s = s.
Proof.
  destruct s as [|c s]; [done|]. cbn. intros H.
  destruct (N.eqb_spec c BOM) as [->|]; done.
Qed.

(** X2.  A text without carriage returns that does not begin with a
    byte-order mark is read in the same way when it is saved as on Windows,
    each line feed written as carriage return and line feed and a byte-order
    mark put in front: the run is the same. *)
Theorem windows_text_accepted content w :
  CR ∉ content → head content ≠ Some BOM →
  check_samplesheet (BOM :: to_crlf content) w = check_samplesheet content w.
Proof.
  intros Hcr Hbom. apply check_samplesheet_open_r. unfold open_r.
  rewrite (utf_8_sig_id content) by done.
  change (utf_8_sig (BOM :: to_crlf content)) with (to_crlf content).
  by rewrite universal_newlines_to_crlf, universal_newlines_id.
Qed.

Lemma windows_text_accepted_witness :
  check_samplesheet
    ([BOM] ++ lit "species,file,tax1,tax2,mode,uniprot" ++ [CR; LF]
       ++ lit "cat,c.fa,a,b,c,d" ++ [CR; LF])
    (World [] None)
  = check_samplesheet
      (lit "species,file,tax1,tax2,mode,uniprot" ++ [LF]
         ++ lit "cat,c.fa,a,b,c,d" ++ [LF])
      (World [] None).
Proof.
  refine (windows_text_accepted
            (lit "species,file,tax1,tax2,mode,uniprot" ++ [LF]
               ++ lit "cat,c.fa,a,b,c,d" ++ [LF])
            (World [] None) _ _).
  - apply (bool_decide_unpack _). vm_compute. exact I.
  - vm_compute. discriminate.
Defined.

(** Whether a carriage return is pending after [s]. *)
Lemma universal_newlines_snoc_LF b s :
  universal_newlines b (s ++ [LF]) = universal_newlines b s ++ [LF] ∨
  universal_newlines b (s ++ [LF]) = universal_newlines b s.
Proof.
  revert b. induction s as [|c s IH]; intros b.
  - destruct b; [by right|by left].
  - cbn [app universal_newlines].
    destruct (c =? CR).
    + destruct (IH true) as [-> | ->]; [by left|by right].
    + destruct ((c =? LF) && b).
      * apply IH.
      * destruct (IH false) as [-> | ->]; [by left|by right].
Qed.

Lemma utf_8_sig_snoc_LF s : utf_8_sig (s ++ [LF]) = utf_8_sig s ++ [LF].
Proof. destruct s as [|c s]; [done|]. cbn. by destruct (c =? BOM). Qed.

Lemma readlines_snoc_LF t :
  readlines (t ++ [LF]) = readlines t ++ [[LF]] ∨
  ∃ init l, readlines t = init ++ [l] ∧
            readlines (t ++ [LF]) = init ++ [l ++ [LF]].
Proof.
  induction t as [|c t IH]; [by left|].
  cbn [app readlines]. destruct (c =? LF).
  - destruct IH as [-> |(init & l & -> & ->)]; [by left|].
    right. by exists ([c] :: init), l.
  - destruct IH as [-> |(init & l & -> & ->)].
    + destruct (readlines t) as [|l ls]; [|by left].
      right. by exists [], [c].
    + right. destruct init as [|i init].
      * by exists [], (c :: l).
      * by exists ((c :: i) :: init), l.
Qed.

Lemma data_lines_app l1 l2 :
  data_lines (l1 ++ l2) = data_lines l1 ++ data_lines l2.
Proof. apply filter_app. Qed.

Lemma data_lines_strip_snoc_LF l :
  map strip (data_lines [l ++ [LF]]) = map strip (data_lines [l]).
Proof.
  rewrite !data_lines_cons, strip_LF. case_bool_decide; [|done].
  cbn. by rewrite strip_LF.
Qed.

(** X3.  The line feed at the end of the input is optional, and one more
    does no harm: appending a line feed to an input changes neither the
    outcome, nor what is printed, nor the output. *)
Theorem final_line_feed_optional content w :
  check_samplesheet (content ++ [LF]) w = check_samplesheet content w.
Proof.
  unfold open_r.
  destruct (universal_newlines_snoc_LF false (utf_8_sig content)) as [E|E].
  2:{ apply check_samplesheet_open_r. unfold open_r.
      by rewrite utf_8_sig_snoc_LF, E. }
  assert (open_r (content ++ [LF])
          = readlines (universal_newlines false (utf_8_sig content) ++ [LF]))
    as Hopen by (unfold open_r; by rewrite utf_8_sig_snoc_LF, E).
  apply check_samplesheet_lines; rewrite Hopen; unfold open_r; clear Hopen E;
    generalize (universal_newlines false (utf_8_sig content)); intros t;
    destruct (readlines_snoc_LF t) as [-> |(init & l & -> & ->)].
  - destruct (readlines t); [|done]. vm_compute. reflexivity.
  - destruct init; cbn [hd app]; [by rewrite strip_LF|done].
  - destruct (readlines t) as [|h r]; [done|]. cbn [tl app].
    rewrite data_lines_app. change (data_lines [[LF]]) with (@nil str).
    by rewrite app_nil_r.
  - destruct init as [|h r]; [done|]. cbn [tl app].
    rewrite !data_lines_app, !map_app. f_equal.
    apply data_lines_strip_snoc_LF.
Qed.

(** ** What is printed *)

Lemma error_str_is_error e context context_str :
  is_error (error_str e context context_str).
Proof.
  unfold is_error, error_str.
  change (lit "ERROR: Please check samplesheet -> ")
    with (lit "ERROR: Please check samplesheet" ++ lit " -> ").
  destruct (_ && _); rewrite <- !app_assoc; by eexists.
Qed.

Lemma warning_is_warning species : is_warning (warning species).
Proof.
  unfold is_warning, warning.
  change (lit "WARNING: Spaces have been replaced by underscores for sample: ")
    with (lit "WARNING: "
            ++ lit "Spaces have been replaced by underscores for sample: ").
  rewrite <- app_assoc. by eexists.
Qed.

Lemma printed_Return {A} (a : A) w : printed w (Return a, w).
Proof. exists []. split; [constructor|]. cbn. by rewrite app_nil_r. Qed.

Lemma printed_fatal {A} e line w1 w warns :
  Forall is_warning warns → stdout w1 = stdout w ++ warns →
  printed w (@SystemExit A 1, fatal e line w1).
Proof.
  intros Hw Hs. exists warns. split; [done|]. cbn. split; [done|].
  eexists. split; [apply error_str_is_error|]. by rewrite Hs, app_assoc.
Qed.

Lemma warned_printed species w :
  ∃ warns, Forall is_warning warns ∧
           stdout (warned species w) = stdout w ++ warns.
Proof.
  rewrite warned_stdout. destruct (contains SPACE species).
  - exists [warning species]. split; [|done].
    constructor; [apply warning_is_warning|constructor].
  - exists []. by split; [constructor|].
Qed.

Lemma check_row_printed line w : printed w (check_row line w).
Proof.
  rewrite check_row_run.
  case_bool_decide as Hlen.
  { apply (printed_fatal _ _ _ _ []); [constructor|by rewrite app_nil_r]. }
  case_bool_decide as Hnum.
  { apply (printed_fatal _ _ _ _ []); [constructor|by rewrite app_nil_r]. }
  destruct (lspl line) as [|species [|? [|? [|? [|? [|? ?]]]]]];
    try (cbn in Hlen; lia).
  destruct (warned_printed species w) as (warns & Hw & Hs).
  break_ifs; try by eapply printed_fatal.
  exists warns. by split.
Qed.

Lemma printed_trans {A B} w w1 (r : outcome B * world) (a : A) warns :
  Forall is_warning warns → stdout w1 = stdout w ++ warns →
  printed w1 r → printed w r.
Proof.
  intros Hw Hs (warns' & Hw' & H). exists (warns ++ warns').
  split; [by apply Forall_app|].
  destruct r as [[b|c|e] w2]; cbn in *.
  - by rewrite H, Hs, app_assoc.
  - destruct H as (-> & e & He & H). split; [done|]. exists e. split; [done|].
    by rewrite H, Hs, !app_assoc.
  - done.
Qed.

Lemma read_entries_printed (lines : list str)
    (d : gmap str (list (list str))) w :
  printed w (read_entries lines d w).
Proof.
  revert d w. induction lines as [|line lines IH]; intros d w.
  - apply printed_Return.
  - rewrite read_entries_cons. case_bool_decide; [|apply IH].
    pose proof (check_row_printed line w) as Hrow.
    destruct (check_row line w) as [[[species info]|c|e] w1]; try done.
    destruct Hrow as (warns & Hw & Hs). cbn in Hs.
    rewrite populate_run. destruct (d !! species) as [l|].
    + case_bool_decide.
      * by eapply printed_fatal.
      * eapply (printed_trans w w1 _ ()); [done..|apply IH].
    + eapply (printed_trans w w1 _ ()); [done..|apply IH].
Qed.

Lemma read_phase_run content w :
  (check_header (hd [] (open_r content)) ;; read_entries (tl (open_r content)) ∅) w
  = match check_header (hd [] (open_r content)) w with
    | (Return _, w1) => read_entries (tl (open_r content)) ∅ w1
    | (SystemExit code, w1) => (SystemExit code, w1)
    | (Raised e, w1) => (Raised e, w1)
    end.
Proof. rewrite bind_unfold. by destruct (check_header _ w) as [[[]|c|e] w1]. Qed.

Lemma check_samplesheet_dirs_run {FS : Type}
    (makedirs open_for_writing : str → FS → os_result * FS)
    content out_path w fs :
  check_samplesheet_dirs makedirs open_for_writing content out_path w fs =
  match check_header (hd [] (open_r content)) w with
  | (Return _, w1) =>
      match read_entries (tl (open_r content)) ∅ w1 with
      | (Return d, w2) =>
          if bool_decide (0 < size d)%nat then
            match make_dir makedirs (dirname out_path) fs with
            | (Done, fs') =>
                match open_for_writing out_path fs' with
                | (Done, fs'') => (write_samplesheet d w2, fs'')
                | (OSError _, fs'') => (Raised (lit "OSError"), w2, fs'')
                end
            | (OSError _, fs') => (Raised (lit "OSError"), w2, fs')
            end
          else (SystemExit 1,
                World (stdout w2
                         ++ [lit "ERROR: Please check samplesheet -> No entries to process!"])
                  (file_out w2),
                fs)
      | (SystemExit code, w2) => (SystemExit code, w2, fs)
      | (Raised e, w2) => (Raised e, w2, fs)
      end
  | (SystemExit code, w1) => (SystemExit code, w1, fs)
  | (Raised e, w1) => (Raised e, w1, fs)
  end.
Proof.
  unfold check_samplesheet_dirs. cbv zeta. rewrite read_phase_run.
  by destruct (check_header _ w) as [[[]|c|e] w1].
Qed.

(** X4.  Whatever the operating system does when the directory of the
    output is made and the output file is opened, a run prints warnings,
    each beginning with [WARNING: ], and, when and only when it ends by
    [sys.exit], one error message beginning with
    [ERROR: Please check samplesheet], which is the last thing printed; the
    status is then 1.  A run that ends with an error of the operating
    system has printed warnings only. *)
Theorem printed_messages {FS : Type}
    (makedirs open_for_writing : str → FS → os_result * FS)
    content out_path w fs :
  ∃ warns,
    Forall (λ m, lit "WARNING: " `prefix_of` m) warns ∧
    match
      check_samplesheet_dirs makedirs open_for_writing content out_path w fs
    with
    | (Return _, w', _) => stdout w' = stdout w ++ warns
    | (SystemExit code, w', _) =>
        code = 1%Z ∧
        ∃ e, lit "ERROR: Please check samplesheet" `prefix_of` e ∧
             stdout w' = stdout w ++ warns ++ [e]
    | (Raised _, w', _) => stdout w' = stdout w ++ warns
    end.
Proof.
  rewrite check_samplesheet_dirs_run, check_header_run. cbv zeta.
  case_bool_decide.
  { exists []. split; [constructor|]. split; [done|]. eexists. split; [|done].
    change (lit "ERROR: Please check samplesheet header -> ")
      with (lit "ERROR: Please check samplesheet" ++ lit " header -> ").
    rewrite <- !app_assoc. by eexists. }
  destruct (read_entries_printed (tl (open_r content)) ∅ w)
    as (warns & Hw & Hp).
  destruct (read_entries _ ∅ w) as [[d|c|e] w2]; cbn in Hp;
    [|by exists warns|done].
  exists warns. split; [done|]. case_bool_decide.
  - destruct (make_dir makedirs (dirname out_path) fs) as [[|errno] fs'];
      [|done].
    destruct (open_for_writing out_path fs') as [[|errno] fs'']; [|done].
    by rewrite write_samplesheet_run.
  - split; [done|]. eexists. split; [|by rewrite Hp, app_assoc].
    by eexists.
Qed.

(** ** No entries *)

Lemma check_row_exit line w code w' :
  check_row line w = (SystemExit code, w') → ∃ e w1, w' = fatal e line w1.
Proof. row_cases line; intros [= <- <-]; eauto. Qed.

Lemma read_entries_exit (lines : list str)
    (d : gmap str (list (list str))) w code w' :
  read_entries lines d w = (SystemExit code, w') →
  ∃ e line w1, strip line ≠ [] ∧ w' = fatal e line w1.
Proof.
  revert d w. induction lines as [|line lines IH]; intros d w; [done|].
  rewrite read_entries_cons. case_bool_decide as Hb; [|apply IH].
  destruct (check_row line w) as [[[species info]|c|e] w1] eqn:Hrow.
  - rewrite populate_run. destruct (d !! species) as [l|]; [|apply IH].
    case_bool_decide; [|apply IH]. intros [= <- <-]. eauto.
  - intros [= <- <-]. apply check_row_exit in Hrow as (e & w2 & ->). eauto.
  - done.
Qed.

Lemma error_str_LF e line : line ≠ [] → LF ∈ error_str e (lit "Line") line.
Proof.
  intros Hl. unfold error_str.
  rewrite (bool_decide_eq_true_2 (lit "Line" ≠ [])) by done.
  rewrite (bool_decide_eq_true_2 (line ≠ [])) by done.
  cbn [andb]. set_solver.
Qed.

Lemma read_entries_no_data (lines : list str)
    (d : gmap str (list (list str))) w :
  data_lines lines = [] → read_entries lines d w = (Return d, w).
Proof. intros H. by rewrite read_entries_data_lines, H. Qed.

(** X5.  The error of the empty result, [No entries to process!] without a
    second line, is what a run ends with exactly when the header is accepted
    and every later line is blank. *)
Theorem no_entries_error content w :
  check_samplesheet content w =
  (SystemExit 1,
   World (stdout w
            ++ [lit "ERROR: Please check samplesheet -> No entries to process!"])
     (file_out w))
  ↔ header_ok content ∧ data_lines (tl (open_r content)) = [].
Proof.
  rewrite check_samplesheet_run, check_header_run. cbv zeta. unfold header_ok.
  split.
  - case_bool_decide as Hh.
    { intros [= H%app_inv_head]. vm_compute in H. discriminate H. }
    destruct (read_entries _ ∅ w) as [[d|c|e] w2] eqn:Hread.
    + case_bool_decide as Hsize; [by rewrite write_samplesheet_run|].
      intros _. split; [done|].
      apply (read_entries_Return _ []) in Hread as (recs & Hv & Hg & _);
        [|apply grouped_empty|constructor].
      cbn [app] in Hg. destruct recs as [|r recs].
      * by apply Forall2_nil_inv_r in Hv.
      * exfalso. apply Hsize. by apply (grouped_size (r :: recs) d).
    + apply read_entries_exit in Hread as (e & line & w1 & Hl & ->).
      intros [= _ H _]. apply app_inj_tail in H as [_ H].
      assert (LF ∈ error_str e (lit "Line") line) as HLF.
      { apply error_str_LF. by intros ->. }
      rewrite H in HLF. revert HLF. apply (bool_decide_unpack _).
      vm_compute. exact I.
    + done.
  - intros [Hh Hd]. rewrite bool_decide_eq_false_2 by (by intros ?).
    rewrite read_entries_no_data by done.
    by rewrite bool_decide_eq_false_2 by (rewrite map_size_empty; lia).
Qed.

(** ** The rows of the output and the rows of the input *)

Lemma regrouped_elem keys recs species val :
  (species, val) ∈ regrouped keys recs ↔
  species ∈ keys ∧ (species, val) ∈ recs.
Proof.
  unfold regrouped. rewrite elem_of_concat. split.
  - intros (l & Hl & Hin). apply list_elem_of_fmap in Hl as (s & -> & Hs).
    apply list_elem_of_fmap in Hin as (v & [= -> ->] & Hv).
    split; [done|]. by apply remainders_elem.
  - intros [Hs Hin]. eexists. split.
    + apply list_elem_of_fmap. by exists species.
    + apply list_elem_of_fmap. exists val. split; [done|].
      by apply remainders_elem.
Qed.

Lemma regrouped_NoDup keys recs :
  NoDup keys → NoDup recs → NoDup (regrouped keys recs).
Proof.
  intros Hk Hr. unfold regrouped.
  induction Hk as [|s keys Hs Hk IH]; [constructor|].
  cbn [map concat]. apply NoDup_app. split; [|split; [|done]].
  - apply NoDup_fmap_2; [|by apply NoDup_remainders].
    by intros v1 v2 [= ->].
  - intros [s' v] (v' & [= -> ->] & _)%list_elem_of_fmap Hin.
    apply (regrouped_elem keys recs) in Hin as [? _]. done.
Qed.

Lemma regrouped_Permutation keys recs :
  NoDup keys → NoDup recs → (∀ s, s ∈ keys ↔ s ∈ recs.*1) →
  regrouped keys recs ≡ₚ recs.
Proof.
  intros Hk Hr Hcover. apply NoDup_Permutation; [by apply regrouped_NoDup|done|].
  intros [s v]. rewrite regrouped_elem. split; [by intros [_ ?]|].
  intros Hin. split; [|done]. apply Hcover, list_elem_of_fmap.
  by exists (s, v).
Qed.

Lemma out_rows_regrouped keys recs :
  Forall2 (λ row r, ∃ idx, row = (run_id r.1 idx, r.2))
    (out_rows keys recs) (regrouped keys recs).
Proof.
  unfold out_rows, regrouped. induction keys as [|s keys IH]; [constructor|].
  cbn [map concat]. apply Forall2_app; [|done].
  generalize (remainders s recs). intros l.
  change (imap (λ idx val, (run_id s idx, val)) l)
    with (imap (λ idx val, (run_id s (id idx), val)) l).
  generalize (@id nat). induction l as [|v l IHl]; intros g; [constructor|].
  rewrite imap_cons. cbn [map]. constructor; [by exists (g 0%nat)|].
  apply (IHl (g ∘ S)).
Qed.

(** X6.  On success every data line of the input has its line in the
    output and the output has no other lines after the header: the lines of
    the output after the first are, in their order, those of a permutation
    of the records of the data lines, each with a run identifier of its
    species in front of its 5 fields. *)
Theorem rows_preserved content w w' out :
  check_samplesheet content w = (Return (), w') →
  file_out w' = Some out →
  ∃ recs recs',
    Forall2 validated (data_lines (tl (open_r content))) recs ∧
    recs' ≡ₚ recs ∧
    Forall2 (λ line r,
               ∃ idx,
                 line = join (lit ",")
                          ((r.1 ++ lit "_T" ++ str_of_nat (idx + 1)) :: r.2)
                        ++ [LF])
      (tl (open_r out)) recs' ∧
    length (tl (open_r out)) = length (data_lines (tl (open_r content))).
Proof.
  intros (recs & keys & _ & Hv & Hnd & _ & Hs & Hk & Hf)%check_samplesheet_Return.
  rewrite Hf. intros [= <-].
  pose proof (validated_rows_well_formed _ _ Hv) as Hwf.
  pose proof (StronglySorted_str_lt_NoDup _ Hs) as Hkeys.
  pose proof (regrouped_Permutation keys recs Hkeys Hnd Hk) as Hperm.
  exists recs, (regrouped keys recs).
  rewrite open_r_out_text by done. cbn [tl].
  split; [done|]. split; [done|]. split.
  - change (map ?f ?l) with (f <$> l). apply Forall2_fmap_l.
    eapply Forall2_impl; [apply out_rows_regrouped|].
    intros row r [idx ->]. by exists idx.
  - rewrite length_map, (Forall2_length _ _ _ (out_rows_regrouped keys recs)).
    by rewrite Hperm, (Forall2_length _ _ _ Hv).
Qed.

Lemma rows_preserved_witness :
  let content :=
    lit "species,file,tax1,tax2,mode,uniprot" ++ [LF]
      ++ lit "cat,c1.fa,a,b,c,d" ++ [LF]
      ++ lit "ant,a.fasta,a,b,c,d" ++ [LF; LF]
      ++ lit "cat,c2.fa,a,b,c,d" ++ [LF] in
  let out :=
    lit "species,file,tax1,tax2,mode,uniprot" ++ [LF]
      ++ lit "ant_T1,a.fasta,a,b,c,d" ++ [LF]
      ++ lit "cat_T1,c1.fa,a,b,c,d" ++ [LF]
      ++ lit "cat_T2,c2.fa,a,b,c,d" ++ [LF] in
  ∃ recs recs',
    Forall2 validated (data_lines (tl (open_r content))) recs ∧
    recs' ≡ₚ recs ∧
    Forall2 (λ line r,
               ∃ idx,
                 line = join (lit ",")
                          ((r.1 ++ lit "_T" ++ str_of_nat (idx + 1)) :: r.2)
                        ++ [LF])
      (tl (open_r out)) recs' ∧
    length (tl (open_r out)) = length (data_lines (tl (open_r content))).
Proof.
  intros content out.
  refine (rows_preserved content (World [] None) (World [] (Some out)) out _ _).
  - vm_compute. reflexivity.
  - reflexivity.
Defined.

(** ** The columns of the output *)

Lemma split_snoc_length sep s c :
  c ≠ sep → length (split sep (s ++ [c])) = length (split sep s).
Proof.
  intros Hc. induction s as [|d s IH]; cbn [app split].
  - apply N.eqb_neq in Hc. by rewrite Hc.
  - destruct (d =? sep); cbn [length]; [by rewrite IH|].
    destruct (split sep (s ++ [c])) as [|f fs] eqn:E1;
      [by apply split_nonempty in E1|].
    destruct (split sep s) as [|g gs] eqn:E2; [by apply split_nonempty in E2|].
    cbn [length] in *. done.
Qed.

Lemma row_ok_columns r :
  row_ok r → length (split COMMA (row_line r ++ [LF])) = 6%nat.
Proof.
  intros (species & idx & file & tax1 & tax2 & mode & uniprot & -> & Hwf).
  destruct Hwf as (_ & _ & Hs & f & a & b & m & u & Heq & Hp & _).
  cbn [fst snd] in *. injection Heq as <- <- <- <- <-.
  rewrite split_snoc_length by done. unfold row_line. cbn [fst snd].
  change (lit ",") with [COMMA]. rewrite split_join; [done|done|].
  constructor; [by apply run_id_plain|].
  apply (Forall_impl _ _ _ Hp). intros f' Hf'. apply Hf'.
Qed.

(** X7.  The output of a successful run is a table of 6 columns: every line
    of it, the header included, has exactly 6 fields when split at the
    commas, whatever the number of fields of the rows of the input. *)
Theorem output_has_six_columns content w w' out :
  check_samplesheet content w = (Return (), w') →
  file_out w' = Some out →
  Forall (λ line, length (split COMMA line) = 6%nat) (open_r out).
Proof.
  intros (recs & keys & _ & Hv & _ & _ & _ & _ & Hf)%check_samplesheet_Return.
  rewrite Hf. intros [= <-].
  pose proof (validated_rows_well_formed _ _ Hv) as Hwf.
  rewrite open_r_out_text by done. constructor; [by vm_compute|].
  apply Forall_forall. intros line (r & -> & Hr)%list_elem_of_fmap.
  by eapply row_ok_columns, out_rows_ok.
Qed.

Lemma output_has_six_columns_witness :
  Forall (λ line, length (split COMMA line) = 6%nat)
    (open_r (lit "species,file,tax1,tax2,mode,uniprot" ++ [LF]
               ++ lit "cat_T1,,a,b,c,d" ++ [LF])).
Proof.
  refine (output_has_six_columns
            (lit "species,file,tax1,tax2,mode,uniprot,more" ++ [LF]
               ++ lit "cat,,a,b,c,d,e,f,g" ++ [LF])
            (World [] None)
            (World [] (Some (lit "species,file,tax1,tax2,mode,uniprot" ++ [LF]
                               ++ lit "cat_T1,,a,b,c,d" ++ [LF])))
            _ _ _).
  - vm_compute. reflexivity.
  - reflexivity.
Defined.

(** ** Rows that count as duplicates *)

Lemma check_samplesheet_fails content w :
  (∀ w', check_samplesheet content w ≠ (Return (), w')) →
  ∃ w', check_samplesheet content w = (SystemExit 1, w') ∧
        file_out w' = file_out w.
Proof.
  rewrite check_samplesheet_run, check_header_run. cbv zeta.
  case_bool_decide; [by eauto|].
  destruct (read_entries_outcome (tl (open_r content)) ∅ w)
    as (w2 & Hf & [[d ->]| ->]); [|by eauto].
  case_bool_decide; [|by eauto].
  rewrite write_samplesheet_run. intros Hno. by edestruct Hno.
Qed.

Lemma validated_functional line r1 r2 :
  validated line r1 → validated line r2 → r1 = r2.
Proof.
  intros H1 H2. destruct (H1 (World [] None)) as (w1 & E1 & _).
  destruct (H2 (World [] None)) as (w2 & E2 & _). congruence.
Qed.

(** X8.  Rows are duplicates when their records are equal, not their text:
    if two data lines at different places give the same record, the species
    after the replacement of its spaces and the 5 fields after it, the run
    exits with status 1 and writes nothing, however the lines differ in
    spaces against underscores in the species, in quotes, in white space
    around the fields or in fields after the sixth. *)
Theorem equal_records_rejected content w (i j : nat) l1 l2 r :
  i ≠ j →
  data_lines (tl (open_r content)) !! i = Some l1 →
  data_lines (tl (open_r content)) !! j = Some l2 →
  validated l1 r → validated l2 r →
  ∃ w', check_samplesheet content w = (SystemExit 1, w') ∧
        file_out w' = file_out w.
Proof.
  intros Hij Hi Hj H1 H2. apply check_samplesheet_fails.
  intros w' (recs & keys & _ & Hv & Hnd & _)%check_samplesheet_Return.
  destruct (Forall2_lookup_l _ _ _ _ _ Hv Hi) as (r1 & Hr1 & Hv1).
  destruct (Forall2_lookup_l _ _ _ _ _ Hv Hj) as (r2 & Hr2 & Hv2).
  rewrite (validated_functional _ _ _ Hv1 H1) in Hr1.
  rewrite (validated_functional _ _ _ Hv2 H2) in Hr2.
  apply Hij. by eapply NoDup_lookup.
Qed.

Lemma equal_records_rejected_witness :
  let content :=
    lit "species,file,tax1,tax2,mode,uniprot" ++ [LF]
      ++ lit "homo sapiens,h.fa,a,b,c,d" ++ [LF]
      ++ lit "homo_sapiens , h.fa,a,b,c,d,more" ++ [LF] in
  ∃ w', check_samplesheet content (World [] None) = (SystemExit 1, w') ∧
        file_out w' = None.
Proof.
  intros content.
  refine (equal_records_rejected content (World [] None) 0 1
            (lit "homo sapiens,h.fa,a,b,c,d" ++ [LF])
            (lit "homo_sapiens , h.fa,a,b,c,d,more" ++ [LF])
            (lit "homo_sapiens", [lit "h.fa"; lit "a"; lit "b"; lit "c"; lit "d"])
            _ _ _ _ _).
  - lia.
  - vm_compute. reflexivity.
  - vm_compute. reflexivity.
  - apply (check_row_validated _ (World [] None) _
             (World [warning (lit "homo sapiens")] None)).
    vm_compute. reflexivity.
  - apply (check_row_validated _ (World [] None) _ (World [] None)).
    vm_compute. reflexivity.
Defined.

(** ** Rows of exactly 6 fields *)

Lemma canonical_nil species : canonical species = [] ↔ species = [].
Proof.
  unfold canonical. destruct (contains SPACE species); [|done].
  unfold replace. split; [apply map_eq_nil|by intros ->].
Qed.

Lemma num_cols_all line :
  num_cols line = length (lspl line) → Forall (λ f, f ≠ []) (lspl line).
Proof.
  unfold num_cols. intros H. apply Forall_forall. intros f Hf.
  destruct (decide (f ≠ [])) as [|Hn]; [done|].
  pose proof (length_filter_lt (λ x, x ≠ []) _ _ Hf Hn). lia.
Qed.

(** X9.  For a row of exactly 6 fields the check of the populated columns
    decides more than its message says: such a row is accepted only if all
    its 6 fields are non-empty, its file with one of the two extensions,
    and its record is made of the fields as they are after the replacement
    of the spaces of the species; and it is never rejected with the message
    of the missing sample entry, which takes a row of at least 7 fields. *)
Theorem six_field_rows line w :
  length (lspl line) = 6%nat →
  (∀ r w', check_row line w = (Return r, w') →
     Forall (λ f, f ≠ []) (lspl line) ∧
     r.2 = tl (lspl line) ∧
     ∃ file, lspl line !! 1%nat = Some file ∧
             (endswith (lit ".fasta") file = true
              ∨ endswith (lit ".fa") file = true)) ∧
  (∀ w1, check_row line w ≠
         (SystemExit 1,
          fatal (lit "Sample entry has not been specified!") line w1)).
Proof.
  intros Hlen. rewrite check_row_run.
  rewrite bool_decide_eq_false_2 by (rewrite Hlen; cbn; lia).
  case_bool_decide as Hnum.
  { split; [done|]. intros w1 H.
    apply (f_equal snd), fatal_inj in H as [H _]. revert H. lit_neq. }
  assert (Forall (λ f, f ≠ []) (lspl line)) as Hall.
  { apply num_cols_all.
    pose proof (length_filter (λ x, x ≠ []) (lspl line)) as Hle.
    unfold num_cols, MIN_COLS in *. lia. }
  destruct (lspl line) as [|species [|file [|tax1 [|tax2 [|mode [|uniprot [|]]]]]]];
    try done.
  pose proof Hall as Hall'.
  rewrite !Forall_cons in Hall. destruct Hall as (Hs & Hf & _).
  rewrite bool_decide_eq_false_2 by (by rewrite canonical_nil).
  rewrite bool_decide_eq_true_2 by done. cbn [andb].
  unfold fasta_ok. rewrite (bool_decide_eq_false_2 (file = [])) by done.
  destruct (contains SPACE file).
  { split; [done|]. intros w1 H.
    apply (f_equal snd), fatal_inj in H as [H _]. revert H. lit_neq. }
  cbn [orb negb andb].
  destruct (endswith (lit ".fasta") file || endswith (lit ".fa") file) eqn:He.
  - cbn [negb]. split; [|done]. intros r w' [= <- _].
    split; [done|]. split; [done|].
    exists file. split; [done|]. by apply orb_true_iff.
  - cbn [negb]. split; [done|]. intros w1 H.
    apply (f_equal snd), fatal_inj in H as [H _]. revert H. lit_neq.
Qed.

Lemma six_field_rows_witness :
  check_row (lit ",c.fa,a,b,c,d") (World [] None) ≠
  (SystemExit 1,
   fatal (lit "Sample entry has not been specified!") (lit ",c.fa,a,b,c,d")
     (World [] None)).
Proof.
  refine (proj2 (six_field_rows (lit ",c.fa,a,b,c,d") (World [] None) _)
            (World [] None)).
  vm_compute. reflexivity.
Defined.

(** ** Commas *)

Lemma split_length sep s :
  length (split sep s) = S (length (filter (λ c, c = sep) s)).
Proof.
  induction s as [|c s IH]; [done|]. cbn [split]. rewrite filter_cons.
  destruct (N.eqb_spec c sep) as [->|Hc].
  - rewrite decide_True by done. cbn [length]. by rewrite IH.
  - rewrite decide_False by done.
    destruct (split sep s) as [|f fs] eqn:E; [by apply split_nonempty in E|].
    cbn [length] in *. done.
Qed.

Lemma filter_lstrip_by p sep s :
  p sep = false →
  filter (λ c, c = sep) (lstrip_by p s) = filter (λ c, c = sep) s.
Proof.
  intros Hsep. induction s as [|c s IH]; [done|]. cbn [lstrip_by].
  destruct (p c) eqn:Hc; [|done].
  rewrite filter_cons, decide_False by congruence. done.
Qed.

Lemma filter_rstrip_by p sep s :
  p sep = false →
  filter (λ c, c = sep) (rstrip_by p s) = filter (λ c, c = sep) s.
Proof.
  intros Hsep. induction s as [|c s IH]; [done|]. cbn [rstrip_by].
  rewrite (filter_cons _ c s), <- IH.
  destruct (rstrip_by p s) as [|r rs].
  - destruct (p c) eqn:Hc.
    + by rewrite decide_False by congruence.
    + by rewrite filter_cons.
  - by rewrite (filter_cons _ c).
Qed.

(** X10.  A line has one field more than it has commas: a comma between
    double quotes separates two fields like any other, and white space or
    quotes never join or drop a field. *)
Theorem fields_are_split_at_every_comma line :
  length (lspl line) = S (length (filter (λ c, c = COMMA) line)).
Proof.
  unfold lspl, strip, strip_by.
  rewrite length_map, split_length, filter_lstrip_by, filter_rstrip_by; done.
Qed.

(** ** The directory of the output file *)

Lemma upto_last_no_sep sep p : sep ∉ p → upto_last sep p = [].
Proof.
  induction p as [|c p IH]; [done|]. intros [Hc Hp]%not_elem_of_cons.
  cbn. rewrite IH by done. apply not_eq_sym, N.eqb_neq in Hc. by rewrite Hc.
Qed.

Lemma dirname_bare p : SLASH ∉ p → dirname p = [].
Proof. intros H. unfold dirname. by rewrite upto_last_no_sep. Qed.

Section directories_properties.

Context {FS : Type}.
Variable makedirs : str → FS → os_result * FS.

Lemma make_dir_cases path fs :
  match make_dir makedirs path fs with
  | (Done, fs') =>
      (path = [] ∧ fs' = fs) ∨
      (path ≠ [] ∧ (makedirs path fs = (Done, fs')
                    ∨ makedirs path fs = (OSError EEXIST, fs')))
  | (OSError errno, fs') =>
      path ≠ [] ∧ errno ≠ EEXIST ∧ makedirs path fs = (OSError errno, fs')
  end.
Proof.
  unfold make_dir. case_bool_decide as Hl.
  - assert (path ≠ []) by (intros ->; cbn in Hl; lia).
    destruct (makedirs path fs) as [[|errno] fs']; [by auto|].
    case_bool_decide as He; [done|]. subst. by auto.
  - left. split; [|done]. destruct path; [done|]. cbn in Hl. lia.
Qed.

(** X11.  [make_dir] never fails because the directory exists: the errors
    it lets through are those of [makedirs] other than [EEXIST].  If
    [makedirs] fails with [EEXIST] on a directory it has just made, and
    changes nothing when it fails so, then [make_dir] can be repeated: after
    a call that succeeded a second call succeeds and changes nothing. *)
Theorem make_dir_repeatable path fs fs1 :
  (∀ p s s', makedirs p s = (Done, s') → makedirs p s' = (OSError EEXIST, s')) →
  (∀ p s s', makedirs p s = (OSError EEXIST, s') → s' = s) →
  (∀ fs', make_dir makedirs path fs ≠ (OSError EEXIST, fs')) ∧
  (make_dir makedirs path fs = (Done, fs1) →
   make_dir makedirs path fs1 = (Done, fs1)).
Proof.
  intros Hmade Hexists. split.
  - intros fs' H. pose proof (make_dir_cases path fs) as Hc.
    rewrite H in Hc. by destruct Hc as (_ & ? & _).
  - intros H. pose proof (make_dir_cases path fs) as Hc. rewrite H in Hc.
    destruct Hc as [[-> ->]|[Hp [Hm|Hm]]]; [done| |].
    + apply Hmade in Hm. unfold make_dir.
      rewrite bool_decide_eq_true_2 by (destruct path; [done|cbn; lia]).
      rewrite Hm. by rewrite bool_decide_eq_false_2 by (by intros ?).
    + pose proof (Hexists _ _ _ Hm) as ->. unfold make_dir.
      rewrite bool_decide_eq_true_2 by (destruct path; [done|cbn; lia]).
      rewrite Hm. by rewrite bool_decide_eq_false_2 by (by intros ?).
Qed.

End directories_properties.

Lemma set_makedirs_made (p : str) (s s' : gset str) :
  set_makedirs p s = (Done, s') → set_makedirs p s' = (OSError EEXIST, s').
Proof.
  unfold set_makedirs. case_bool_decide; [done|]. intros [= <-].
  rewrite bool_decide_eq_true_2; [done|]. set_solver.
Qed.

Lemma set_makedirs_exists (p : str) (s s' : gset str) :
  set_makedirs p s = (OSError EEXIST, s') → s' = s.
Proof. unfold set_makedirs. case_bool_decide; by intros [= <-]. Qed.

Lemma make_dir_repeatable_witness :
  make_dir set_makedirs (lit "results/sheets") ({[lit "results/sheets"]} ∪ ∅)
  = (Done, {[lit "results/sheets"]} ∪ ∅).
Proof.
  refine (proj2 (make_dir_repeatable set_makedirs (lit "results/sheets") ∅
                   ({[lit "results/sheets"]} ∪ ∅)
                   set_makedirs_made set_makedirs_exists) _).
  reflexivity.
Defined.

Lemma read_phase_world content w d w2 :
  (check_header (hd [] (open_r content)) ;; read_entries (tl (open_r content)) ∅) w
  = (Return d, w2) →
  file_out w2 = file_out w.
Proof.
  rewrite read_phase_run, check_header_run. cbv zeta.
  case_bool_decide; [done|]. intros Hr.
  destruct (read_entries_outcome (tl (open_r content)) ∅ w)
    as (w3 & Hf & [[d' Hr']|Hr']); rewrite Hr in Hr'; [|done].
  by injection Hr' as _ <-.
Qed.

(** A run that passes the checks, as far as the operating system lets it
    go. *)
Lemma check_samplesheet_dirs_success {FS : Type}
    (makedirs open_for_writing : str → FS → os_result * FS)
    content out_path w fs w' :
  check_samplesheet content w = (Return (), w') →
  check_samplesheet_dirs makedirs open_for_writing content out_path w fs =
  match make_dir makedirs (dirname out_path) fs with
  | (Done, fs') =>
      match open_for_writing out_path fs' with
      | (Done, fs'') => (Return (), w', fs'')
      | (OSError _, fs'') =>
          (Raised (lit "OSError"), World (stdout w') (file_out w), fs'')
      end
  | (OSError _, fs') =>
      (Raised (lit "OSError"), World (stdout w') (file_out w), fs')
  end.
Proof.
  rewrite check_samplesheet_dirs_run, check_samplesheet_run.
  pose proof (read_phase_world content w) as Hf. rewrite read_phase_run in Hf.
  destruct (check_header _ w) as [[[]|c|e] w1]; try done.
  destruct (read_entries _ ∅ w1) as [[d|c|e] w2]; try done.
  specialize (Hf d w2 eq_refl).
  case_bool_decide as Hsize; [|done].
  rewrite write_samplesheet_run. intros [= <-]. cbn [stdout].
  rewrite <- Hf. by destruct w2.
Qed.

Lemma check_samplesheet_dirs_failure {FS : Type}
    (makedirs open_for_writing : str → FS → os_result * FS)
    content out_path w fs :
  (∀ w', check_samplesheet content w ≠ (Return (), w')) →
  check_samplesheet_dirs makedirs open_for_writing content out_path w fs =
  (check_samplesheet content w, fs).
Proof.
  rewrite check_samplesheet_dirs_run, check_samplesheet_run.
  destruct (check_header _ w) as [[[]|c|e] w1]; try done.
  destruct (read_entries _ ∅ w1) as [[d|c|e] w2]; try done.
  case_bool_decide as Hsize; [|done].
  rewrite write_samplesheet_run. intros Hno. by edestruct Hno.
Qed.

(** X12.  The script with its dealings with the operating system.  A run
    that does not pass the checks ends as it does without them, and the
    file system is as before: no directory is made and no file opened.  A
    run that passes them makes the directory of the output with [make_dir]
    and then, if that has not failed, opens the output file in the file
    system [make_dir] has left; it ends as it does without when the file
    opens, and with the [OSError], having printed what it had printed and
    the output file untouched, when [make_dir] or the opening fails.  For an
    output path without a slash, [makedirs] plays no part. *)
Theorem directory_made_before_writing {FS : Type}
    (makedirs open_for_writing : str → FS → os_result * FS)
    content out_path w fs :
  let r :=
    check_samplesheet_dirs makedirs open_for_writing content out_path w fs in
  ((∀ w', check_samplesheet content w ≠ (Return (), w')) →
   r = (check_samplesheet content w, fs)) ∧
  (∀ w', check_samplesheet content w = (Return (), w') →
     match make_dir makedirs (dirname out_path) fs with
     | (Done, fs') =>
         match open_for_writing out_path fs' with
         | (Done, fs'') => r = (Return (), w', fs'')
         | (OSError errno, fs'') =>
             r = (Raised (lit "OSError"),
                  World (stdout w') (file_out w), fs'')
         end
     | (OSError errno, fs') =>
         r = (Raised (lit "OSError"), World (stdout w') (file_out w), fs')
     end) ∧
  (SLASH ∉ out_path →
   ∀ makedirs' : str → FS → os_result * FS,
     check_samplesheet_dirs makedirs' open_for_writing content out_path w fs
     = r).
Proof.
  cbv zeta. split; [|split].
  - apply check_samplesheet_dirs_failure.
  - intros w' Hrun.
    rewrite (check_samplesheet_dirs_success _ _ _ _ _ _ w') by done.
    destruct (make_dir makedirs (dirname out_path) fs) as [[|errno] fs'];
      [|done].
    by destruct (open_for_writing out_path fs') as [[|errno] fs''].
  - intros Hbare makedirs'. rewrite !check_samplesheet_dirs_run.
    rewrite dirname_bare by done. unfold make_dir.
    by rewrite !bool_decide_eq_false_2 by (cbn; lia).
Qed.

Lemma directory_made_before_writing_witness :
  let content :=
    lit "species,file,tax1,tax2,mode,uniprot" ++ [LF]
      ++ lit "cat,c.fa,a,b,c,d" ++ [LF] in
  let w' :=
    World [] (Some (lit "species,file,tax1,tax2,mode,uniprot" ++ [LF]
                      ++ lit "cat_T1,c.fa,a,b,c,d" ++ [LF])) in
  check_samplesheet_dirs set_makedirs set_open content
    (lit "results/sheets/out.csv") (World [] None) ∅
  = (Return (), w', {[lit "results/sheets"]} ∪ ∅).
Proof.
  intros content w'.
  refine (proj1 (proj2 (directory_made_before_writing set_makedirs set_open
                          content (lit "results/sheets/out.csv")
                          (World [] None) ∅)) w' _).
  vm_compute. reflexivity.
Defined.

(** ** The first error *)

(** X13.  The first error ends the run: a run that fails for its header,
    or for one of its data lines, fails in the same way, with the same
    messages, when further lines follow its input; these are not looked at.
    Only the error of the empty result can go away when lines are added. *)
Theorem first_error_ends_the_run c1 c2 (rest : list str) w code w' :
  check_samplesheet c1 w = (SystemExit code, w') →
  ¬ (header_ok c1 ∧ data_lines (tl (open_r c1)) = []) →
  hd [] (open_r c2) = hd [] (open_r c1) →
  tl (open_r c2) = tl (open_r c1) ++ rest →
  check_samplesheet c2 w = (SystemExit code, w').
Proof.
  intros Hrun Hdata Hhd Htl. revert Hrun.
  rewrite !check_samplesheet_run, Hhd, Htl, check_header_run. cbv zeta.
  case_bool_decide as Hh; [done|].
  rewrite read_entries_app.
  destruct (read_entries (tl (open_r c1)) ∅ w) as [[d|c|e] w2] eqn:Hread;
    [|done..].
  case_bool_decide as Hsize; [by rewrite write_samplesheet_run|].
  exfalso. apply Hdata. split; [done|].
  apply (read_entries_Return _ []) in Hread as (recs & Hv & Hg & _);
    [|apply grouped_empty|constructor].
  cbn [app] in Hg. destruct recs as [|r recs].
  - by apply Forall2_nil_inv_r in Hv.
  - exfalso. apply Hsize. by apply (grouped_size (r :: recs) d).
Qed.

Lemma first_error_ends_the_run_witness :
  let header := lit "species,file,tax1,tax2,mode,uniprot" ++ [LF] in
  let bad := lit "cat,c.txt,a,b,c,d" ++ [LF] in
  check_samplesheet
    (header ++ bad ++ lit "dog" ++ [LF] ++ lit "ant,a.fa,a,b,c,d" ++ [LF])
    (World [] None)
  = (SystemExit 1,
     fatal (lit "Fasta file does not have extension '.fasta' or '.fa'!") bad
       (World [] None)).
Proof.
  intros header bad.
  refine (first_error_ends_the_run (header ++ bad) _
            [lit "dog" ++ [LF]; lit "ant,a.fa,a,b,c,d" ++ [LF]]
            (World [] None) 1 _ _ _ _ _).
  - vm_compute. reflexivity.
  - intros [_ H]. vm_compute in H. discriminate H.
  - vm_compute. reflexivity.
  - vm_compute. reflexivity.
Defined.

(** ** A header that is too short *)

(** X14.  An input whose first line has fewer than 6 fields, an empty input
    among them, is rejected for its header: the run exits with status 1,
    having printed the header it found against the header it expects, and
    writes nothing. *)
Theorem short_header_rejected content w :
  (length (split COMMA (strip (hd [] (open_r content)))) < 6)%nat →
  check_samplesheet content w =
  (SystemExit 1,
   World (stdout w ++
            [lit "ERROR: Please check samplesheet header -> "
               ++ join (lit ",")
                    (map strip_quotes
                       (split COMMA (strip (hd [] (open_r content)))))
               ++ lit " != species,file,tax1,tax2,mode,uniprot"])
     (file_out w)).
Proof.
  intros Hlen. rewrite check_samplesheet_run, check_header_run. cbv zeta.
  rewrite bool_decide_eq_true_2; [done|].
  intros H%(f_equal length). rewrite length_take, length_map in H.
  change (length HEADER) with 6%nat in H. lia.
Qed.

Lemma short_header_rejected_witness :
  check_samplesheet [] (World [] None) =
  (SystemExit 1,
   World [lit "ERROR: Please check samplesheet header -> "
            ++ lit " != species,file,tax1,tax2,mode,uniprot"]
     None).
Proof.
  refine (short_header_rejected [] (World [] None) _).
  vm_compute. lia.
Defined.

(** ** The order of the rows of different species *)

#[export] Instance str_lt_antisymm : AntiSymm (=) str_lt.
Proof. intros a b [H1 _] [H2 _]. by apply (anti_symm str_le). Qed.

Lemma strictly_sorted_unique keys1 keys2 :
  StronglySorted str_lt keys1 → StronglySorted str_lt keys2 →
  (∀ s, s ∈ keys1 ↔ s ∈ keys2) → keys1 = keys2.
Proof.
  intros H1 H2 Hel. apply (StronglySorted_unique str_lt); [done..|].
  apply NoDup_Permutation; [by apply StronglySorted_str_lt_NoDup..|done].
Qed.

Lemma remainders_swap species (r1 r2 : str * list str) rp rq :
  r1.1 ≠ r2.1 →
  remainders species (rp ++ r2 :: r1 :: rq)
  = remainders species (rp ++ r1 :: r2 :: rq).
Proof.
  intros Hne. destruct r1 as [s1 v1], r2 as [s2 v2]. cbn in Hne.
  change (rp ++ (s2, v2) :: (s1, v1) :: rq)
    with (rp ++ [(s2, v2)] ++ [(s1, v1)] ++ rq).
  change (rp ++ (s1, v1) :: (s2, v2) :: rq)
    with (rp ++ [(s1, v1)] ++ [(s2, v2)] ++ rq).
  rewrite !remainders_app, !remainders_singleton.
  destruct (decide (s1 = species)), (decide (s2 = species)); try done.
  congruence.
Qed.

(** X15.  The output does not depend on the order in which rows of
    different species follow each other: when a run succeeds, so does the
    run on the input with two neighbouring data lines of different species
    exchanged, and it writes the same output. *)
Theorem neighbours_of_different_species_commute
    c1 c2 (pre post : list str) l1 l2 r1 r2 w w1 :
  hd [] (open_r c1) = hd [] (open_r c2) →
  tl (open_r c1) = pre ++ l1 :: l2 :: post →
  tl (open_r c2) = pre ++ l2 :: l1 :: post →
  validated l1 r1 → validated l2 r2 → r1.1 ≠ r2.1 →
  check_samplesheet c1 w = (Return (), w1) →
  ∃ w2, check_samplesheet c2 w = (Return (), w2) ∧ file_out w2 = file_out w1.
Proof.
  intros Hhd Ht1 Ht2 Hv1 Hv2 Hne
    (recs & keys & Hh & Hv & Hnd & Hrne & Hs & Hk & Hf)%check_samplesheet_Return.
  pose proof (validated_nonblank _ _ Hv1) as Hb1.
  pose proof (validated_nonblank _ _ Hv2) as Hb2.
  rewrite Ht1, data_lines_app, !data_lines_cons in Hv.
  rewrite !bool_decide_eq_true_2 in Hv by done.
  apply Forall2_app_inv_l in Hv as (rp & rest & Hvp & Hvr & ->).
  apply Forall2_cons_inv_l in Hvr as (r1' & rest' & Hr1 & Hvr & ->).
  apply Forall2_cons_inv_l in Hvr as (r2' & rq & Hr2 & Hvq & ->).
  rewrite (validated_functional _ _ _ Hr1 Hv1) in *.
  rewrite (validated_functional _ _ _ Hr2 Hv2) in *.
  assert (rp ++ r2 :: r1 :: rq ≡ₚ rp ++ r1 :: r2 :: rq) as Hperm.
  { apply Permutation_app_head, perm_swap. }
  destruct (check_samplesheet_success c2 (rp ++ r2 :: r1 :: rq) w)
    as (keys2 & w2 & Hs2 & Hk2 & Hrun & Hf2).
  - unfold header_ok in *. by rewrite <- Hhd.
  - rewrite Ht2, data_lines_app, !data_lines_cons.
    rewrite !bool_decide_eq_true_2 by done.
    apply Forall2_app; [done|]. by repeat constructor.
  - by rewrite Hperm.
  - by destruct rp.
  - exists w2. split; [done|]. rewrite Hf, Hf2. f_equal.
    assert (keys2 = keys) as ->.
    { apply strictly_sorted_unique; [done..|].
      intros s. rewrite Hk2, Hk. by rewrite Hperm. }
    unfold out_text. f_equal. f_equal. apply map_ext. intros s.
    by rewrite remainders_swap.
Qed.

Lemma neighbours_of_different_species_commute_witness :
  let header := lit "species,file,tax1,tax2,mode,uniprot" ++ [LF] in
  let cat := lit "cat,c.fa,a,b,c,d" ++ [LF] in
  let ant := lit "ant,a.fa,a,b,c,d" ++ [LF] in
  ∃ w2,
    check_samplesheet (header ++ ant ++ cat) (World [] None) = (Return (), w2) ∧
    file_out w2 =
    Some (header ++ lit "ant_T1,a.fa,a,b,c,d" ++ [LF]
            ++ lit "cat_T1,c.fa,a,b,c,d" ++ [LF]).
Proof.
  intros header cat ant.
  refine (neighbours_of_different_species_commute
            (header ++ cat ++ ant) (header ++ ant ++ cat) [] [] cat ant
            (lit "cat", [lit "c.fa"; lit "a"; lit "b"; lit "c"; lit "d"])
            (lit "ant", [lit "a.fa"; lit "a"; lit "b"; lit "c"; lit "d"])
            (World [] None)
            (World [] (Some (header ++ lit "ant_T1,a.fa,a,b,c,d" ++ [LF]
                               ++ lit "cat_T1,c.fa,a,b,c,d" ++ [LF])))
            _ _ _ _ _ _ _).
  - vm_compute. reflexivity.
  - vm_compute. reflexivity.
  - vm_compute. reflexivity.
  - apply (check_row_validated _ (World [] None) _ (World [] None)).
    vm_compute. reflexivity.
  - apply (check_row_validated _ (World [] None) _ (World [] None)).
    vm_compute. reflexivity.
  - vm_compute. discriminate.
  - vm_compute. reflexivity.
Defined.

(** ** The warnings of a successful run *)

Lemma check_row_Return_world line w r w' :
  check_row line w = (Return r, w') → w' = warned (hd [] (lspl line)) w.
Proof. row_cases line; by intros [= _ <-]. Qed.

Lemma warnings_of_cons line lines :
  warnings_of (line :: lines) =
  (if contains SPACE (hd [] (lspl line)) then [warning (hd [] (lspl line))]
   else []) ++ warnings_of lines.
Proof.
  unfold warnings_of. cbn [map]. rewrite filter_cons.
  destruct (contains SPACE (hd [] (lspl line))) eqn:E.
  - apply contains_spec in E. by rewrite decide_True.
  - rewrite decide_False; [done|]. rewrite <- contains_spec. congruence.
Qed.

Lemma read_entries_Return_stdout (lines : list str)
    (d d' : gmap str (list (list str))) w w' :
  read_entries lines d w = (Return d', w') →
  stdout w' = stdout w ++ warnings_of (data_lines lines).
Proof.
  revert d w. induction lines as [|line lines IH]; intros d w.
  - intros [= _ <-]. by rewrite app_nil_r.
  - rewrite read_entries_cons, data_lines_cons.
    case_bool_decide; [|apply IH].
    destruct (check_row line w) as [[[species info]|c|e] w1] eqn:Hrow; try done.
    apply check_row_Return_world in Hrow as ->.
    rewrite populate_run, warnings_of_cons.
    destruct (d !! species) as [l|]; [case_bool_decide; [done|]|];
      intros ->%IH; by rewrite warned_stdout, <- app_assoc.
Qed.

(** X16.  A successful run prints one warning for each data line whose
    species contains a space, in the order of the lines, each naming the
    species as it was before the replacement, and nothing else. *)
Theorem warnings_on_success content w w' :
  check_samplesheet content w = (Return (), w') →
  stdout w' =
  stdout w ++
    map (λ species,
           lit "WARNING: Spaces have been replaced by underscores for sample: "
             ++ species)
      (filter (λ s, SPACE ∈ s)
         (map (λ l, hd [] (lspl l)) (data_lines (tl (open_r content))))).
Proof.
  rewrite check_samplesheet_run, check_header_run. cbv zeta.
  case_bool_decide; [done|].
  destruct (read_entries _ ∅ w) as [[d|c|e] w2] eqn:Hread; try done.
  apply read_entries_Return_stdout in Hread.
  case_bool_decide; [|done]. rewrite write_samplesheet_run.
  intros [= <-]. cbn [stdout]. by rewrite Hread.
Qed.

Lemma warnings_on_success_witness :
  [lit "WARNING: Spaces have been replaced by underscores for sample: homo sapiens"]
  = [] ++
    map (λ species,
           lit "WARNING: Spaces have been replaced by underscores for sample: "
             ++ species)
      (filter (λ s, SPACE ∈ s)
         (map (λ l, hd [] (lspl l))
            (data_lines
               (tl (open_r (lit "species,file,tax1,tax2,mode,uniprot" ++ [LF]
                              ++ lit "cat,c.fa,a,b,c,d" ++ [LF]
                              ++ lit "homo sapiens,h.fa,a,b,c,d" ++ [LF])))))).
Proof.
  refine (warnings_on_success
            (lit "species,file,tax1,tax2,mode,uniprot" ++ [LF]
               ++ lit "cat,c.fa,a,b,c,d" ++ [LF]
               ++ lit "homo sapiens,h.fa,a,b,c,d" ++ [LF])
            (World [] None)
            (World [lit "WARNING: Spaces have been replaced by underscores for sample: homo sapiens"]
               (Some (lit "species,file,tax1,tax2,mode,uniprot" ++ [LF]
                        ++ lit "cat_T1,c.fa,a,b,c,d" ++ [LF]
                        ++ lit "homo_sapiens_T1,h.fa,a,b,c,d" ++ [LF])))
            _).
  vm_compute. reflexivity.
Defined.

(** ** The directory that is made *)





(** ** Quoted fields *)

(** X18.  Double quotes around a field are dropped and protect what is
    between them from the stripping of white space, which is done first:
    a field between two double quotes is read as what is between them
    without its outer double quotes, its outer white space kept. *)
Theorem quoted_field_keeps_inner_white_space f :
  trim ([QUOTE] ++ f ++ [QUOTE]) = strip_quotes f.
Proof.
  unfold trim, strip.
  rewrite (strip_by_id isspace _ QUOTE QUOTE); try done.
  - unfold strip_quotes. cbn [app].
    rewrite strip_by_cons_p by done. by rewrite strip_by_snoc.
  - cbn [app]. by rewrite last_cons, last_snoc.
Qed.
